(** * Safety-supervised motor actuation: Raspberry/index.py

    A shallow embedding of the L298N motor controller, its software
    watchdog and hardware heartbeat, the command dispatcher and the
    shutdown path, followed by the properties of the specification.

    Conventions of the model:
    - Python methods are computations in a state-and-exception monad; a
      [try]/[except Exception] block is [try_except].
    - [time.time()] reads a clock kept in the process state; the floats
      of the source (timestamps, velocities, duty cycles) are rationals
      [Q].  Comparisons are exact, and a float literal that is compared
      with has the value of its double ([float_0_1]); arithmetic is
      exact, so what is said of a product holds up to its rounding
      ([rounded]).
    - [time.sleep(s)] advances the clock by [s]; what depends on how long
      a thread is really held up is stated with the latencies given
      ([watchdog_run]).
    - [print] and the ROS logger append to a console kept in the process
      state.
    - A method is a function of the world it starts in, so a call runs
      without interruption; the threads of the source are not
      synchronised, and what is said of all of them together is said of
      the interleavings of their statements ([statement],
      [interleaved]).
    - RPi.GPIO is outside the repository.  Its calls are modelled by what
      they do to the pins; of its errors, the one that depends on a value
      the program computes is kept: a PWM duty cycle outside 0.0 .. 100.0
      raises ValueError.  The errors for a channel that is not set up
      are not: see [gpio_ready] and [live]. *)

From Stdlib Require Import ZArith QArith Qabs Lqa Bool String Ascii List Lia.
From stdpp Require Import base gmap strings pretty.

Set Default Proof Using "Type".
Local Open Scope Z_scope.
Local Open Scope string_scope.

(** ** State and exceptions *)

(** The exceptions that the modelled code can meet.  [ValueError_dutycycle]
    is RPi.GPIO's ValueError for a duty cycle outside 0.0 .. 100.0; it
    records the value that was handed to the driver. *)
Inductive exn :=
| ValueError_dutycycle (dc : Q)
| ValueError_int (text : string)
| KeyError (key : string)
| IndexError.

Definition exn_str (e : exn) : string :=
  match e with
  | ValueError_dutycycle _ => "dutycycle must have a value from 0.0 to 100.0"
  | ValueError_int text =>
      "invalid literal for int() with base 10: '" ++ text ++ "'"
  | KeyError key => "'" ++ key ++ "'"
  | IndexError => "list index out of range"
  end.

Inductive result (S A : Type) :=
| Ok (a : A) (s : S)
| Raise (e : exn) (s : S).
Arguments Ok {S A} a s.
Arguments Raise {S A} e s.

Definition M (S A : Type) : Type := S → result S A.

Definition final {S A} (r : result S A) : S :=
  match r with Ok _ s => s | Raise _ s => s end.

Definition raised {S A} (r : result S A) : option exn :=
  match r with Ok _ _ => None | Raise e _ => Some e end.

#[global] Instance M_ret {S} : MRet (M S) := λ A a s, Ok a s.
#[global] Instance M_bind {S} : MBind (M S) := λ A B f m s,
  match m s with
  | Ok a s' => f a s'
  | Raise e s' => Raise e s'
  end.

Definition raise {S A} (e : exn) : M S A := λ s, Raise e s.
Definition gets {S A} (f : S → A) : M S A := λ s, Ok (f s) s.
Definition modify {S} (f : S → S) : M S unit := λ s, Ok tt (f s).

(** [try: body except Exception as e: handler e] *)
Definition try_except {S A} (body : M S A) (handler : exn → M S A) : M S A :=
  λ s, match body s with
       | Ok a s' => Ok a s'
       | Raise e s' => handler e s'
       end.

(** Run a computation on a component of the state. *)
Definition zoom {S T A} (get : T → S) (set : S → T → T) (m : M S A) : M T A :=
  λ t, match m (get t) with
       | Ok a s => Ok a (set s t)
       | Raise e s => Raise e (set s t)
       end.

(** [for x in l: body x] *)
Fixpoint for_each {S A} (l : list A) (body : A → M S unit) : M S unit :=
  match l with
  | [] => mret tt
  | x :: l' => body x ;; for_each l' body
  end.

(** [if c: body] with no else branch *)
Definition when {S} (c : bool) (body : M S unit) : M S unit :=
  if c then body else mret tt.

(** ** Python built-ins used by the source *)

(** [d[key]] on a dict with string keys, kept in insertion order so that
    [d.items()] iterates as Python does. *)
Fixpoint dict_get {V} (d : list (string * V)) (key : string) : option V :=
  match d with
  | [] => None
  | (k, v) :: d' => if String.eqb k key then Some v else dict_get d' key
  end.

Definition getitem {S V} (d : list (string * V)) (key : string) : M S V :=
  match dict_get d key with
  | Some v => mret v
  | None => raise (KeyError key)
  end.

(** [str.lower()] on ASCII text, which is what the command vocabulary is
    made of: the letters A-Z are lowered and every other byte is kept.
    Python also lowers letters outside ASCII, some of them to ASCII
    letters (U+212A, the Kelvin sign, becomes [k]); on text that holds
    such letters [lower] and [str.lower()] differ, so a property of the
    dispatcher that depends on the outcome of the comparison is stated
    for ASCII tokens, see [ascii_text]. *)
Definition lower_ascii (c : ascii) : ascii :=
  let n := nat_of_ascii c in
  if (Nat.leb 65 n && Nat.leb n 90)%bool then ascii_of_nat (n + 32) else c.

Fixpoint lower (s : string) : string :=
  match s with
  | EmptyString => EmptyString
  | String c s' => String (lower_ascii c) (lower s')
  end.

(** Truthiness of an integer, as in [if WATCHDOG_PIN:]. *)
Definition truthy (n : Z) : bool := negb (Z.eqb n 0).

(** Comparisons on the rationals, as booleans. *)
Definition Qgtb (a b : Q) : bool := negb (Qle_bool a b).
Definition Qltb (a b : Q) : bool := negb (Qle_bool b a).

(** The float literal [0.1] where the source compares a float with it: the
    double nearest to one tenth, 3602879701896397 / 2^55, which lies
    slightly above one tenth.  Comparisons of doubles are exact, so this
    is the threshold that the comparison really uses. *)
Definition float_0_1 : Q := 3602879701896397 # 36028797018963968.

(** ** Configuration constants *)

Definition WATCHDOG_TIMEOUT : Q := 2.0.
Definition HEARTBEAT_INTERVAL : Q := 0.5.

Definition MOTOR_PINS : list (string * Z) :=
  [("IN1", 23); ("IN2", 24); ("IN3", 25); ("IN4", 8);
   ("ENA", 18); ("ENB", 12)].

Definition WATCHDOG_PIN : Z := 7.

(** ** The process: RPi.GPIO, the clock and the console *)

Inductive numbering := BCM | BOARD.
Inductive level := LOW | HIGH.

Inductive event :=
| Print (text : string)
| LogInfo (text : string)
| LogWarn (text : string).

(** RPi.GPIO's module state: the numbering mode, the warnings flag, the
    channels configured as outputs and the level last written to each. *)
Record gpio_state := GpioState {
  mode : option numbering;
  warnings : bool;
  configured : gset Z;
  output_level : gmap Z level
}.

Record process := Process {
  gpio : gpio_state;
  clock : Q;
  console : list event
}.

Definition with_gpio (g : gpio_state) (p : process) : process :=
  {| gpio := g; clock := clock p; console := console p |}.

Definition emit (e : event) (p : process) : process :=
  {| gpio := gpio p; clock := clock p; console := (console p ++ [e])%list |}.

Definition print (text : string) : M process unit :=
  modify (emit (Print text)).

Definition log (e : event) : M process unit :=
  modify (emit e).

Definition time_time : M process Q := gets clock.

(** Time passing: [time.sleep(seconds)], or the environment between two
    steps.  [time_sleep] advances the clock by its argument; a real sleep
    lasts at least that long, and how much longer is not in the hands of
    the program. *)
Definition elapse (seconds : Q) (p : process) : process :=
  {| gpio := gpio p; clock := (clock p + seconds)%Q; console := console p |}.

Definition time_sleep (seconds : Q) : M process unit :=
  modify (elapse seconds).

(** The calls of RPi.GPIO that the source makes.  Every [GPIO.output] of
    the source follows a [GPIO.setup] of the same channel (in the
    constructor or in [emergency_stop]), so [output] is the write itself.
    RPi.GPIO refuses the write with RuntimeError on a channel that is not
    set up, as it is again after [GPIO.cleanup()]; the write is what
    [output] does in a process that is ready for it. *)
Module GPIO.

Definition set_mode (m : numbering) (p : process) : process :=
  with_gpio
    {| mode := Some m; warnings := warnings (gpio p);
       configured := configured (gpio p);
       output_level := output_level (gpio p) |} p.

Definition setmode (m : numbering) : M process unit :=
  modify (set_mode m).

Definition set_warnings (flag : bool) (p : process) : process :=
  with_gpio
    {| mode := mode (gpio p); warnings := flag;
       configured := configured (gpio p);
       output_level := output_level (gpio p) |} p.

Definition setwarnings (flag : bool) : M process unit :=
  modify (set_warnings flag).

(** The effect of [GPIO.setup(channel, GPIO.OUT)]. *)
Definition configure (channel : Z) (p : process) : process :=
  with_gpio
    {| mode := mode (gpio p); warnings := warnings (gpio p);
       configured := {[channel]} ∪ configured (gpio p);
       output_level := output_level (gpio p) |} p.

Definition setup_out (channel : Z) : M process unit :=
  modify (configure channel).

(** The write that [GPIO.output(channel, value)] performs. *)
Definition write (channel : Z) (value : level) (p : process) : process :=
  with_gpio
    {| mode := mode (gpio p); warnings := warnings (gpio p);
       configured := configured (gpio p);
       output_level := <[channel := value]> (output_level (gpio p)) |} p.

Definition output (channel : Z) (value : level) : M process unit :=
  modify (write channel value).

(** [GPIO.cleanup()] releases every channel and forgets the mode. *)
Definition release (p : process) : process :=
  with_gpio
    {| mode := None; warnings := warnings (gpio p);
       configured := ∅; output_level := ∅ |} p.

Definition cleanup : M process unit := modify release.

End GPIO.

(** A software PWM object of RPi.GPIO. *)
Module PWM.

Record t := Make {
  channel : Z;
  frequency : Z;
  dutycycle : Q;
  running : bool
}.

(** The driver accepts a duty cycle from 0.0 to 100.0 only. *)
Definition valid_dutycycle (dc : Q) : bool :=
  (Qle_bool 0 dc && Qle_bool dc 100)%bool.

(** [GPIO.PWM(channel, frequency)] *)
Definition new (channel frequency : Z) : t :=
  {| channel := channel; frequency := frequency;
     dutycycle := 0; running := false |}.

Definition start (dc : Q) (pwm : t) : exn + t :=
  if valid_dutycycle dc
  then inr {| channel := channel pwm; frequency := frequency pwm;
              dutycycle := dc; running := true |}
  else inl (ValueError_dutycycle dc).

Definition with_dutycycle (dc : Q) (pwm : t) : t :=
  {| channel := channel pwm; frequency := frequency pwm;
     dutycycle := dc; running := running pwm |}.

Definition ChangeDutyCycle (dc : Q) (pwm : t) : exn + t :=
  if valid_dutycycle dc
  then inr (with_dutycycle dc pwm)
  else inl (ValueError_dutycycle dc).

Definition stop (pwm : t) : t :=
  {| channel := channel pwm; frequency := frequency pwm;
     dutycycle := dutycycle pwm; running := false |}.

End PWM.

(** ** The module-level shutdown hook *)

(** [emergency_stop()], registered with [atexit] and for SIGTERM and
    SIGINT.  It touches the process state only. *)
Definition emergency_stop : M process unit :=
  try_except
    (GPIO.setmode BCM ;;
     GPIO.setwarnings false ;;
     for_each MOTOR_PINS (λ item,
       GPIO.setup_out item.2 ;;
       GPIO.output item.2 LOW) ;;
     when (truthy WATCHDOG_PIN)
       (GPIO.setup_out WATCHDOG_PIN ;;
        GPIO.output WATCHDOG_PIN LOW) ;;
     print "🛑 Emergency stop executed")
    (λ e, print ("⚠️ Emergency stop error: " ++ exn_str e)).

(** ** class SafeMotorController *)

Module SafeMotorController.

(** The instance attributes.  The two thread handles are left out: the
    threads are the loops below, stepped one iteration at a time. *)
Record t := Make {
  pwm_freq : Z;
  pwm_a : PWM.t;
  pwm_b : PWM.t;
  current_speed : Z;
  last_command_time : Q;
  is_moving : bool;
  watchdog_active : bool
}.

(** What a method sees: the process and the object [self]. *)
Record world := World { proc : process; self : t }.

Definition io {A} (m : M process A) : M world A :=
  zoom proc (λ p w, {| proc := p; self := self w |}) m.

Definition getattr {A} (f : t → A) : M world A := gets (λ w, f (self w)).

Definition setattr (f : t → t) : M world unit :=
  modify (λ w, {| proc := proc w; self := f (self w) |}).

Definition with_pwm_a (v : PWM.t) (c : t) : t :=
  {| pwm_freq := pwm_freq c; pwm_a := v; pwm_b := pwm_b c;
     current_speed := current_speed c;
     last_command_time := last_command_time c;
     is_moving := is_moving c; watchdog_active := watchdog_active c |}.

Definition with_pwm_b (v : PWM.t) (c : t) : t :=
  {| pwm_freq := pwm_freq c; pwm_a := pwm_a c; pwm_b := v;
     current_speed := current_speed c;
     last_command_time := last_command_time c;
     is_moving := is_moving c; watchdog_active := watchdog_active c |}.

Definition with_current_speed (v : Z) (c : t) : t :=
  {| pwm_freq := pwm_freq c; pwm_a := pwm_a c; pwm_b := pwm_b c;
     current_speed := v;
     last_command_time := last_command_time c;
     is_moving := is_moving c; watchdog_active := watchdog_active c |}.

Definition with_last_command_time (v : Q) (c : t) : t :=
  {| pwm_freq := pwm_freq c; pwm_a := pwm_a c; pwm_b := pwm_b c;
     current_speed := current_speed c;
     last_command_time := v;
     is_moving := is_moving c; watchdog_active := watchdog_active c |}.

Definition with_is_moving (v : bool) (c : t) : t :=
  {| pwm_freq := pwm_freq c; pwm_a := pwm_a c; pwm_b := pwm_b c;
     current_speed := current_speed c;
     last_command_time := last_command_time c;
     is_moving := v; watchdog_active := watchdog_active c |}.

Definition with_watchdog_active (v : bool) (c : t) : t :=
  {| pwm_freq := pwm_freq c; pwm_a := pwm_a c; pwm_b := pwm_b c;
     current_speed := current_speed c;
     last_command_time := last_command_time c;
     is_moving := is_moving c; watchdog_active := v |}.

(** A call that may raise, made on an attribute that holds an object. *)
Definition call_on {S} (r : exn + S) (store : S → t → t) : M world unit :=
  match r with
  | inr v => setattr (store v)
  | inl e => raise e
  end.

(** [self.pwm_a.ChangeDutyCycle(dc)] and [self.pwm_b.ChangeDutyCycle(dc)] *)
Definition pwm_a_ChangeDutyCycle (dc : Q) : M world unit :=
  pwm ← getattr pwm_a; call_on (PWM.ChangeDutyCycle dc pwm) with_pwm_a.

Definition pwm_b_ChangeDutyCycle (dc : Q) : M world unit :=
  pwm ← getattr pwm_b; call_on (PWM.ChangeDutyCycle dc pwm) with_pwm_b.

(** [GPIO.output(MOTOR_PINS[pin_name], value)] *)
Definition output_motor_pin (pin_name : string) (value : level)
  : M world unit :=
  pin ← getitem MOTOR_PINS pin_name; io (GPIO.output pin value).

(** The constructor: it runs in the process and yields the object. *)
Definition __init__ : M process t :=
  GPIO.setmode BCM ;;
  GPIO.setwarnings false ;;
  for_each MOTOR_PINS (λ item,
    GPIO.setup_out item.2 ;;
    GPIO.output item.2 LOW) ;;
  when (truthy WATCHDOG_PIN)
    (GPIO.setup_out WATCHDOG_PIN ;;
     GPIO.output WATCHDOG_PIN HIGH) ;;
  let pwm_freq := 1000 in
  ena ← getitem MOTOR_PINS "ENA";
  enb ← getitem MOTOR_PINS "ENB";
  pwm_a ← (match PWM.start 0 (PWM.new ena pwm_freq) with
            | inr v => mret v | inl e => raise e end);
  pwm_b ← (match PWM.start 0 (PWM.new enb pwm_freq) with
            | inr v => mret v | inl e => raise e end);
  now ← time_time;
  print "🛡️ Safe Motor Controller initialized with watchdog protection" ;;
  mret {| pwm_freq := pwm_freq; pwm_a := pwm_a; pwm_b := pwm_b;
          current_speed := 70; last_command_time := now;
          is_moving := false; watchdog_active := true |}.

Definition _update_command_time : M world unit :=
  now ← io time_time; setattr (with_last_command_time now).

Definition _emergency_stop_motors : M world unit :=
  try_except
    (pwm_a_ChangeDutyCycle 0 ;;
     pwm_b_ChangeDutyCycle 0 ;;
     for_each ["IN1"; "IN2"; "IN3"; "IN4"] (λ pin_name,
       output_motor_pin pin_name LOW) ;;
     when (truthy WATCHDOG_PIN) (io (GPIO.output WATCHDOG_PIN LOW)))
    (λ e, io (print ("⚠️ Emergency stop error: " ++ exn_str e))).

(** One iteration of the body of [while self.watchdog_active:]. *)
Definition _watchdog_iteration : M world unit :=
  try_except
    (current_time ← io time_time;
     last ← getattr last_command_time;
     when (Qgtb (current_time - last) WATCHDOG_TIMEOUT)
       (moving ← getattr is_moving;
        when moving
          (io (print "⚠️ Watchdog timeout - stopping motors") ;;
           _emergency_stop_motors ;;
           setattr (with_is_moving false))) ;;
     io (time_sleep 0.1))
    (λ e, io (print ("⚠️ Watchdog error: " ++ exn_str e)) ;;
          _emergency_stop_motors).

Fixpoint _watchdog_loop (iterations : nat) : M world unit :=
  match iterations with
  | O => mret tt
  | S n =>
      active ← getattr watchdog_active;
      if active : bool then _watchdog_iteration ;; _watchdog_loop n
      else mret tt
  end.

(** One iteration of the heartbeat loop; [heartbeat_state] is the local
    variable of the thread and is returned for the next iteration. *)
Definition _heartbeat_iteration (heartbeat_state : bool) : M world bool :=
  try_except
    (moving ← getattr is_moving;
     heartbeat_state ←
       (if (truthy WATCHDOG_PIN && moving)%bool then
          io (GPIO.output WATCHDOG_PIN
                (if heartbeat_state then HIGH else LOW)) ;;
          mret (negb heartbeat_state)
        else if truthy WATCHDOG_PIN then
          io (GPIO.output WATCHDOG_PIN HIGH) ;;
          mret heartbeat_state
        else mret heartbeat_state);
     io (time_sleep HEARTBEAT_INTERVAL) ;;
     mret heartbeat_state)
    (λ e, io (print ("⚠️ Heartbeat error: " ++ exn_str e)) ;;
          mret heartbeat_state).

(** [speed if speed is not None else self.current_speed] *)
Definition speed_or_current (speed : option Q) : M world Q :=
  match speed with
  | Some v => mret v
  | None => v ← getattr current_speed; mret (inject_Z v)
  end.

Definition move_forward (speed : option Q) : M world unit :=
  _update_command_time ;;
  speed ← speed_or_current speed;
  when (truthy WATCHDOG_PIN) (io (GPIO.output WATCHDOG_PIN HIGH)) ;;
  output_motor_pin "IN1" HIGH ;;
  output_motor_pin "IN2" LOW ;;
  output_motor_pin "IN3" HIGH ;;
  output_motor_pin "IN4" LOW ;;
  pwm_a_ChangeDutyCycle speed ;;
  pwm_b_ChangeDutyCycle speed ;;
  setattr (with_is_moving true).

Definition move_backward (speed : option Q) : M world unit :=
  _update_command_time ;;
  speed ← speed_or_current speed;
  when (truthy WATCHDOG_PIN) (io (GPIO.output WATCHDOG_PIN HIGH)) ;;
  output_motor_pin "IN1" LOW ;;
  output_motor_pin "IN2" HIGH ;;
  output_motor_pin "IN3" LOW ;;
  output_motor_pin "IN4" HIGH ;;
  pwm_a_ChangeDutyCycle speed ;;
  pwm_b_ChangeDutyCycle speed ;;
  setattr (with_is_moving true).

Definition turn_left (speed : option Q) : M world unit :=
  _update_command_time ;;
  speed ← speed_or_current speed;
  when (truthy WATCHDOG_PIN) (io (GPIO.output WATCHDOG_PIN HIGH)) ;;
  output_motor_pin "IN1" LOW ;;
  output_motor_pin "IN2" HIGH ;;
  output_motor_pin "IN3" HIGH ;;
  output_motor_pin "IN4" LOW ;;
  pwm_a_ChangeDutyCycle speed ;;
  pwm_b_ChangeDutyCycle speed ;;
  setattr (with_is_moving true).

Definition turn_right (speed : option Q) : M world unit :=
  _update_command_time ;;
  speed ← speed_or_current speed;
  when (truthy WATCHDOG_PIN) (io (GPIO.output WATCHDOG_PIN HIGH)) ;;
  output_motor_pin "IN1" HIGH ;;
  output_motor_pin "IN2" LOW ;;
  output_motor_pin "IN3" LOW ;;
  output_motor_pin "IN4" HIGH ;;
  pwm_a_ChangeDutyCycle speed ;;
  pwm_b_ChangeDutyCycle speed ;;
  setattr (with_is_moving true).

Definition stop : M world unit :=
  _update_command_time ;;
  pwm_a_ChangeDutyCycle 0 ;;
  pwm_b_ChangeDutyCycle 0 ;;
  for_each ["IN1"; "IN2"; "IN3"; "IN4"] (λ pin_name,
    output_motor_pin pin_name LOW) ;;
  setattr (with_is_moving false).

Definition set_speed (speed : Z) : M world unit :=
  _update_command_time ;;
  setattr (with_current_speed (Z.max 0 (Z.min 100 speed))).

Definition cleanup : M world unit :=
  io (print "🧹 Cleaning up motor controller...") ;;
  setattr (with_watchdog_active false) ;;
  _emergency_stop_motors ;;
  setattr (λ c, with_pwm_a (PWM.stop (pwm_a c)) c) ;;
  setattr (λ c, with_pwm_b (PWM.stop (pwm_b c)) c) ;;
  io (time_sleep 0.2) ;;
  io GPIO.cleanup ;;
  io (print "✅ Motor controller cleanup complete").

(** [_heartbeat_loop]: the thread starts with [heartbeat_state = True]. *)
Fixpoint heartbeat_iterations (iterations : nat) (heartbeat_state : bool)
  : M world bool :=
  match iterations with
  | O => mret heartbeat_state
  | S n =>
      active ← getattr watchdog_active;
      if active : bool then
        heartbeat_state ← _heartbeat_iteration heartbeat_state;
        heartbeat_iterations n heartbeat_state
      else mret heartbeat_state
  end.

Definition _heartbeat_loop (iterations : nat) : M world bool :=
  heartbeat_iterations iterations true.

End SafeMotorController.

(** ** class SafeRobotCarNode *)

(** [geometry_msgs/Twist] *)
Module geometry_msgs.
Record Vector3 := { x : Q; y : Q; z : Q }.
Record Twist := { linear : Vector3; angular : Vector3 }.
End geometry_msgs.

(** The values that the status dicts hold, before [json.dumps]. *)
Inductive json :=
| JString (s : string)
| JBool (b : bool)
| JNumber (q : Q)
| JStrings (l : list string).

Module SafeRobotCarNode.
Import SafeMotorController.

(** [self.get_logger().info(text)] and [self.get_logger().warn(text)] *)
Definition logger_info (text : string) : M world unit :=
  io (log (LogInfo text)).
Definition logger_warn (text : string) : M world unit :=
  io (log (LogWarn text)).

(** The velocities are doubles, which are rationals; [abs] and the
    comparisons are exact on them.  The product [x * 100] is the exact
    one: the source hands the driver this product rounded to a double. *)
Definition cmd_vel_callback (msg : geometry_msgs.Twist) : M world unit :=
  let linear_x := geometry_msgs.x (geometry_msgs.linear msg) in
  let angular_z := geometry_msgs.z (geometry_msgs.angular msg) in
  _update_command_time ;;
  if Qgtb (Qabs linear_x) (Qabs angular_z) then
    if Qgtb linear_x 0 then
      move_forward (Some (Qabs (linear_x * 100)))
    else if Qltb linear_x 0 then
      move_backward (Some (Qabs (linear_x * 100)))
    else mret tt
  else if Qgtb (Qabs angular_z) float_0_1 then
    if Qgtb angular_z 0 then
      turn_left (Some (Qabs (angular_z * 100)))
    else
      turn_right (Some (Qabs (angular_z * 100)))
  else stop.

Definition execute_command (command : string) : M world unit :=
  let command := lower command in
  if String.eqb command "forward" then
    move_forward None ;; logger_info "🔼 Moving forward"
  else if String.eqb command "backward" then
    move_backward None ;; logger_info "🔽 Moving backward"
  else if String.eqb command "left" then
    turn_left None ;; logger_info "◀️ Turning left"
  else if String.eqb command "right" then
    turn_right None ;; logger_info "▶️ Turning right"
  else if String.eqb command "stop" then
    stop ;; logger_info "⏹️ Stopping"
  else if String.eqb command "emergency_stop" then
    _emergency_stop_motors ;; logger_warn "🚨 Emergency stop executed"
  else
    logger_warn ("❓ Unknown command: " ++ command).

(** [msg.data] of a [std_msgs/String] is the argument. *)
Definition command_callback (data : string) : M world unit :=
  let command := lower data in
  execute_command command.

(** The dict that [publish_status] serialises with [json.dumps]. *)
Definition status_dict (robot_ip : string) : M world (list (string * json)) :=
  timestamp ← io time_time;
  active ← getattr watchdog_active;
  moving ← getattr is_moving;
  now ← io time_time;
  last ← getattr last_command_time;
  mret [("timestamp", JNumber timestamp);
        ("node_status", JString "active");
        ("motor_status", JString "ready");
        ("watchdog_active", JBool active);
        ("is_moving", JBool moving);
        ("last_command_age", JNumber (now - last));
        ("ip_address", JString robot_ip)].

(** [publish_status]: the value is the [data] of the message published
    on [robot_status]; [json_dumps] is Python's [json.dumps]. *)
Definition publish_status (json_dumps : list (string * json) → string)
  (robot_ip : string) : M world string :=
  status ← status_dict robot_ip;
  mret (json_dumps status).

(** The motor part of [destroy_node]. *)
Definition destroy_node : M world unit :=
  logger_info "🛑 Shutting down safely..." ;;
  cleanup.

End SafeRobotCarNode.

(** The [finally] block of [main] once the node exists: the node is
    destroyed, then the module-level hook runs. *)
Definition main_finally : M SafeMotorController.world unit :=
  SafeRobotCarNode.destroy_node ;;
  SafeMotorController.io emergency_stop ;;
  SafeMotorController.io (print "🏁 Safe Robot Car Controller stopped").

(** ** class WebHandler *)

(** What a handler sends back: [send_response(code)] followed by the body,
    or [send_error(code)]. *)
Inductive reply :=
| Response (code : Z) (body : string)
| SendError (code : Z).

Module WebHandler.
Import SafeMotorController.

Section Handler.

(** Python's built-in [int] on text; [None] stands for ValueError. *)
Variable int : string → option Z.

(** Whether [self.robot_node] is set. *)
Variable robot_node : bool.

(** [l[0]] *)
Definition first (l : list string) : M world string :=
  match l with
  | v :: _ => mret v
  | [] => raise IndexError
  end.

Definition int_of (text : string) : M world Z :=
  match int text with
  | Some n => mret n
  | None => raise (ValueError_int text)
  end.

(** [params] is the dict that [parse_qs] yields for the request. *)
Definition handle_control_command (params : gmap string (list string))
  : M world reply :=
  match params !! "cmd" with
  | Some cmd =>
      command ← first cmd;
      response_msg ←
        (match String.eqb command "speed", params !! "value" with
         | true, Some value =>
             text ← first value;
             speed_value ← int_of text;
             when robot_node (set_speed speed_value) ;;
             mret ("Speed set to " ++ pretty speed_value ++ "%")
         | _, _ =>
             when robot_node
               (SafeRobotCarNode.execute_command command) ;;
             mret ("Command '" ++ command ++ "' executed")
         end);
      mret (Response 200 response_msg)
  | None => mret (SendError 400)
  end.

Definition handle_emergency_stop : M world reply :=
  when robot_node _emergency_stop_motors ;;
  mret (Response 200 "Emergency stop executed").

(** [self.robot_ip] *)
Variable robot_ip : string.

(** The page that [send_control_page] renders from [robot_ip],
    [HTTP_PORT] and [WATCHDOG_TIMEOUT]. *)
Variable html_content : string.

(** Python's [json.dumps]. *)
Variable json_dumps : list (string * json) → string.

(** [parse_qs(urlparse(path).query)] *)
Variable parse_query : string → gmap string (list string).

Definition send_control_page : M world reply :=
  mret (Response 200 html_content).

Definition send_status : M world reply :=
  timestamp ← io time_time;
  let status :=
    [("robot_ip", JString robot_ip);
     ("ros2_status", JString "active");
     ("motor_status", JString "ready");
     ("watchdog_active", JBool true);
     ("watchdog_timeout", JNumber WATCHDOG_TIMEOUT);
     ("safety_features",
      JStrings ["software_watchdog"; "emergency_stop";
                "graceful_shutdown"]);
     ("timestamp", JNumber timestamp)] in
  mret (Response 200 (json_dumps status)).

(** [do_GET], on [self.path]. *)
Definition do_GET (path : string) : M world reply :=
  if String.eqb path "/" then send_control_page
  else if String.eqb path "/status" then send_status
  else if String.prefix "/control" path then
    handle_control_command (parse_query path)
  else if String.eqb path "/emergency_stop" then handle_emergency_stop
  else mret (SendError 404).

End Handler.

End WebHandler.

(** ** Observations, the specification's vocabulary and example states *)

(** The level that [GPIO.output] last wrote to a channel.  On a channel
    where a PWM object is running, the pin is pulsed at the duty cycle of
    that object whatever was last written, see [pwm_driving]. *)
Definition pin_level (p : process) (channel : Z) : option level :=
  output_level (gpio p) !! channel.

(** The level of the pin that [MOTOR_PINS] gives for a role. *)
Definition motor_pin_level (p : process) (pin_name : string) : option level :=
  match dict_get MOTOR_PINS pin_name with
  | Some pin => pin_level p pin
  | None => None
  end.

(** IN1, IN2, IN3, IN4 in this order. *)
Definition direction_pins (p : process) : list (option level) :=
  map (motor_pin_level p) ["IN1"; "IN2"; "IN3"; "IN4"].

(** The duty cycles of ENA and ENB. *)
Definition enable_duty (c : SafeMotorController.t) : Q * Q :=
  (PWM.dutycycle (SafeMotorController.pwm_a c),
   PWM.dutycycle (SafeMotorController.pwm_b c)).

(** Time passing between two steps of the program. *)
Definition after (seconds : Q) (w : SafeMotorController.world)
  : SafeMotorController.world :=
  {| SafeMotorController.proc := elapse seconds (SafeMotorController.proc w);
     SafeMotorController.self := SafeMotorController.self w |}.

(** The specification's [clamp(p, lo, hi)]. *)
Definition clamp (p lo hi : Z) : Z :=
  if Z.ltb p lo then lo else if Z.ltb hi p then hi else p.

(** The specification's valid tokens. *)
Definition valid_tokens : list string :=
  ["forward"; "backward"; "left"; "right"; "stop"; "speed";
   "emergency_stop"].

(** Text made of ASCII characters only: every byte is below 128.  On such
    text [lower] is [str.lower()]. *)
Fixpoint ascii_text (s : string) : bool :=
  match s with
  | EmptyString => true
  | String c s' => (Nat.ltb (nat_of_ascii c) 128 && ascii_text s')%bool
  end.

(** A reply that turns the request down. *)
Definition rejected {S} (r : result S reply) : Prop :=
  match r with
  | Raise _ _ => True
  | Ok (SendError _) _ => True
  | Ok (Response code _) _ => code ≠ 200
  end.

(** An instance of [int] for the examples: signed ASCII decimals. *)
Definition digit_of (c : ascii) : option Z :=
  let n := nat_of_ascii c in
  if (Nat.leb 48 n && Nat.leb n 57)%bool
  then Some (Z.of_nat (n - 48)) else None.

Fixpoint digits (s : string) (acc : Z) : option Z :=
  match s with
  | EmptyString => Some acc
  | String c s' =>
      match digit_of c with
      | Some d => digits s' (10 * acc + d)
      | None => None
      end
  end.

Definition int_decimal (s : string) : option Z :=
  match s with
  | EmptyString => None
  | String "-" (String c s') => Z.opp <$> digits (String c s') 0
  | String "+" (String c s') => digits (String c s') 0
  | _ => digits s 0
  end.

(** A process in which nothing has been set up, at time 0. *)
Definition boot : process :=
  {| gpio := {| mode := None; warnings := true;
                configured := ∅; output_level := ∅ |};
     clock := 0; console := [] |}.

(** The world right after [SafeMotorController()] in [boot]. *)
Definition idle_controller : SafeMotorController.t :=
  {| SafeMotorController.pwm_freq := 1000;
     SafeMotorController.pwm_a := PWM.Make 18 1000 0 true;
     SafeMotorController.pwm_b := PWM.Make 12 1000 0 true;
     SafeMotorController.current_speed := 70;
     SafeMotorController.last_command_time := 0;
     SafeMotorController.is_moving := false;
     SafeMotorController.watchdog_active := true |}.

Definition idle_world : SafeMotorController.world :=
  {| SafeMotorController.proc := final (SafeMotorController.__init__ boot);
     SafeMotorController.self := idle_controller |}.

(** The robot driving forward at the default speed. *)
Definition forward_world : SafeMotorController.world :=
  final (SafeMotorController.move_forward None idle_world).

(** ** The vocabulary of the properties *)

Import SafeMotorController.

(** What the watchdog does when it fires: the forced-stop path, then the
    pause of the loop. *)
Definition forced_stop_path : M world unit :=
  io (print "⚠️ Watchdog timeout - stopping motors") ;;
  _emergency_stop_motors ;;
  setattr (with_is_moving false) ;;
  io (time_sleep 0.1).

(** The robot driving forward, 2.5 s after its last command. *)
Definition silent_forward_world : world := after 2.5 forward_world.

(** The specification's effective speed: the explicit argument if given,
    otherwise [current_speed]. *)
Definition effective_speed (speed : option Q) (c : t) : Q :=
  match speed with
  | Some v => v
  | None => inject_Z (current_speed c)
  end.

(** A movement command as the specification describes it: it returns, the
    direction pins read [pins], both enable channels carry the effective
    speed and [is_moving] is set. *)
Definition moves_as_commanded (move : option Q → M world unit)
  (pins : list (option level)) (speed : option Q) (w : world) : Prop :=
  ∃ w', move speed w = Ok tt w'
    ∧ direction_pins (proc w') = pins
    ∧ enable_duty (self w')
      = (effective_speed speed (self w), effective_speed speed (self w))
    ∧ is_moving (self w') = true.

(** What becomes of an explicit speed [p]: the driver receives [p] itself.
    Inside 0..100 it becomes the duty cycle of both channels; outside, the
    driver raises for [p] and the duty cycles and [is_moving] stay as they
    were. *)
Definition handed_to_driver (move : option Q → M world unit)
  (p : Q) (w : world) : Prop :=
  if PWM.valid_dutycycle p
  then ∃ w', move (Some p) w = Ok tt w'
         ∧ enable_duty (self w') = (p, p)
  else ∃ w', move (Some p) w = Raise (ValueError_dutycycle p) w'
         ∧ enable_duty (self w') = enable_duty (self w)
         ∧ is_moving (self w') = is_moving (self w).

(** The state a movement method builds when the driver accepts the speed. *)
Definition driven (l1 l2 l3 l4 : level) (speed : option Q) (w : world)
  : world :=
  {| proc :=
       GPIO.write 8 l4 (GPIO.write 25 l3
         (GPIO.write 24 l2 (GPIO.write 23 l1
            (GPIO.write WATCHDOG_PIN HIGH (proc w)))));
     self :=
       with_is_moving true
         (with_pwm_b
            (PWM.with_dutycycle (effective_speed speed (self w))
               (pwm_b (self w)))
            (with_pwm_a
               (PWM.with_dutycycle (effective_speed speed (self w))
                  (pwm_a (self w)))
               (with_last_command_time (clock (proc w)) (self w)))) |}.

(** The state it leaves when the driver raises: the direction pins are
    written, the duty cycles and [is_moving] are not. *)
Definition refused (l1 l2 l3 l4 : level) (w : world) : world :=
  {| proc :=
       GPIO.write 8 l4 (GPIO.write 25 l3
         (GPIO.write 24 l2 (GPIO.write 23 l1
            (GPIO.write WATCHDOG_PIN HIGH (proc w)))));
     self := with_last_command_time (clock (proc w)) (self w) |}.

(** A velocity command of 1.5 m/s straight ahead. *)
Definition fast_twist : geometry_msgs.Twist :=
  {| geometry_msgs.linear :=
       {| geometry_msgs.x := 1.5; geometry_msgs.y := 0;
          geometry_msgs.z := 0 |};
     geometry_msgs.angular :=
       {| geometry_msgs.x := 0; geometry_msgs.y := 0;
          geometry_msgs.z := 0 |} |}.

(** The process after the writes of the shutdown hook. *)
Definition hook_writes (p : process) : process :=
  GPIO.write 7 LOW (GPIO.configure 7
    (GPIO.write 12 LOW (GPIO.configure 12
      (GPIO.write 18 LOW (GPIO.configure 18
        (GPIO.write 8 LOW (GPIO.configure 8
          (GPIO.write 25 LOW (GPIO.configure 25
            (GPIO.write 24 LOW (GPIO.configure 24
              (GPIO.write 23 LOW (GPIO.configure 23
                (GPIO.set_warnings false (GPIO.set_mode BCM p))))))))))))))).

(** Whether a PWM object drives its channel: it is running with a duty
    cycle above 0.  RPi.GPIO then pulses the pin, and a LOW written with
    [GPIO.output] lasts until the next pulse. *)
Definition pwm_driving (pwm : PWM.t) : bool :=
  (PWM.running pwm && Qgtb (PWM.dutycycle pwm) 0)%bool.

(** The enable channels are inactive: LOW was written to ENA and ENB and
    neither PWM object drives its channel. *)
Definition enables_inactive (w : world) : Prop :=
  motor_pin_level (proc w) "ENA" = Some LOW
  ∧ motor_pin_level (proc w) "ENB" = Some LOW
  ∧ pwm_driving (pwm_a (self w)) = false
  ∧ pwm_driving (pwm_b (self w)) = false.

(** The state that the specification gives the shutdown hook: all motor
    pins and enable channels inactive and the hardware-watchdog pin
    LOW. *)
Definition all_outputs_inactive (w : world) : Prop :=
  direction_pins (proc w) = [Some LOW; Some LOW; Some LOW; Some LOW]
  ∧ enables_inactive w
  ∧ pin_level (proc w) WATCHDOG_PIN = Some LOW.

(** An unknown command as the specification describes it: a warning and
    nothing else. *)
Definition ignored_with_warning (command : string) (w : world) : Prop :=
  ∃ w', SafeRobotCarNode.execute_command command w = Ok tt w'
    ∧ console (proc w')
      = (console (proc w)
         ++ [LogWarn ("❓ Unknown command: " ++ lower command)])%list
    ∧ gpio (proc w') = gpio (proc w)
    ∧ clock (proc w') = clock (proc w)
    ∧ self w' = self w.

(** The controller five seconds after its construction, with no command
    in between. *)
Definition idle_world_later : world := after 5 idle_world.

(** The query [cmd=speed], and the query [cmd=speed&value=fast]. *)
Definition speed_without_value : gmap string (list string) :=
  {[ "cmd" := ["speed"] ]}.

Definition speed_with_text : gmap string (list string) :=
  <[ "value" := ["fast"] ]> {[ "cmd" := ["speed"] ]}.

(** One step of the program or of its environment when calls run one
    after the other: a call of a method, a callback or a handler, one
    iteration of a background loop, or time passing.  A call that raises
    leaves the state it had reached.  For calls that are pre-empted by
    another thread, see [statement]. *)
Inductive step (w : world) : world → Prop :=
| step_move_forward speed : step w (final (move_forward speed w))
| step_move_backward speed : step w (final (move_backward speed w))
| step_turn_left speed : step w (final (turn_left speed w))
| step_turn_right speed : step w (final (turn_right speed w))
| step_stop : step w (final (stop w))
| step_set_speed speed : step w (final (set_speed speed w))
| step_emergency_stop_motors : step w (final (_emergency_stop_motors w))
| step_watchdog : step w (final (_watchdog_iteration w))
| step_heartbeat heartbeat_state :
    step w (final (_heartbeat_iteration heartbeat_state w))
| step_cleanup : step w (final (cleanup w))
| step_cmd_vel msg :
    step w (final (SafeRobotCarNode.cmd_vel_callback msg w))
| step_execute_command command :
    step w (final (SafeRobotCarNode.execute_command command w))
| step_command_callback data :
    step w (final (SafeRobotCarNode.command_callback data w))
| step_publish_status json_dumps robot_ip :
    step w (final (SafeRobotCarNode.publish_status json_dumps robot_ip w))
| step_do_GET int robot_node robot_ip html_content json_dumps parse_query
    path :
    step w (final (WebHandler.do_GET int robot_node robot_ip html_content
                     json_dumps parse_query path w))
| step_shutdown_hook : step w (final (io emergency_stop w))
| step_elapse seconds : (0 <= seconds)%Q → step w (after seconds w).

(** The worlds that a constructed controller can be in between two such
    steps. *)
Inductive reachable : world → Prop :=
| reachable_constructed p c p' :
    __init__ p = Ok c p' → reachable {| proc := p'; self := c |}
| reachable_step w w' : reachable w → step w w' → reachable w'.


(** The pins that the program configures and writes. *)
Definition program_pins : list Z := WATCHDOG_PIN :: map snd MOTOR_PINS.

(** RPi.GPIO accepts [GPIO.output] on the pins of the program when the
    numbering mode is set and the seven channels are configured as
    outputs, as they are from the constructor until [GPIO.cleanup()];
    otherwise it raises RuntimeError.  The model of [GPIO.output] is the
    write alone, so what is said of a call that writes pins is said for
    a process that is ready in this sense. *)
Definition gpio_ready (p : process) : Prop :=
  mode (gpio p) = Some BCM
  ∧ Forall (λ channel, channel ∈ configured (gpio p)) program_pins.

(** A live controller, as it is from the constructor until [cleanup]:
    RPi.GPIO is ready for the pins of the program and both PWM objects
    are running. *)
Definition live (w : world) : Prop :=
  gpio_ready (proc w)
  ∧ PWM.running (pwm_a (self w)) = true
  ∧ PWM.running (pwm_b (self w)) = true.

(** The threads of the program (the ROS executor, the HTTP server, the
    watchdog and the heartbeat) share the controller without a lock, so
    they interleave between statements, not between calls.  [statement]
    is one statement of the source that changes the state, executed by
    whichever thread is running; the values that a statement takes from
    an argument or from an earlier read are arbitrary here:
    - [self.last_command_time = time.time()], with the clock as it was
      read;
    - [GPIO.output(channel, value)] on a pin of the program;
    - [self.pwm_a.ChangeDutyCycle(dc)], [self.pwm_b.ChangeDutyCycle(dc)];
    - [self.is_moving = value];
    - [self.current_speed = max(0, min(100, speed))];
    - a line printed or logged;
    - [time.sleep(seconds)], or time passing between two statements;
    - of [cleanup]: [self.watchdog_active = False], [self.pwm_a.stop()],
      [self.pwm_b.stop()], [GPIO.cleanup()];
    - of the shutdown hook: [GPIO.setmode(GPIO.BCM)],
      [GPIO.setwarnings(False)], [GPIO.setup(channel, GPIO.OUT)]. *)
Inductive statement (w : world) : world → Prop :=
| statement_timestamp now :
    statement w (final (setattr (with_last_command_time now) w))
| statement_output channel value :
    channel ∈ program_pins →
    statement w (final (io (GPIO.output channel value) w))
| statement_duty_a dc : statement w (final (pwm_a_ChangeDutyCycle dc w))
| statement_duty_b dc : statement w (final (pwm_b_ChangeDutyCycle dc w))
| statement_is_moving value :
    statement w (final (setattr (with_is_moving value) w))
| statement_current_speed speed :
    statement w
      (final (setattr (with_current_speed (Z.max 0 (Z.min 100 speed))) w))
| statement_log e : statement w (final (io (log e) w))
| statement_pass seconds : (0 <= seconds)%Q → statement w (after seconds w)
| statement_disarm :
    statement w (final (setattr (with_watchdog_active false) w))
| statement_pwm_a_stop :
    statement w
      (final (setattr (λ c, with_pwm_a (PWM.stop (pwm_a c)) c) w))
| statement_pwm_b_stop :
    statement w
      (final (setattr (λ c, with_pwm_b (PWM.stop (pwm_b c)) c) w))
| statement_gpio_cleanup : statement w (final (io GPIO.cleanup w))
| statement_setmode : statement w (final (io (GPIO.setmode BCM) w))
| statement_setwarnings :
    statement w (final (io (GPIO.setwarnings false) w))
| statement_setup channel :
    channel ∈ program_pins →
    statement w (final (io (GPIO.setup_out channel) w)).

(** The worlds that a constructed controller can be in when its threads
    interleave in any way. *)
Inductive interleaved : world → Prop :=
| interleaved_constructed p c p' :
    __init__ p = Ok c p' → interleaved {| proc := p'; self := c |}
| interleaved_statement w w' :
    interleaved w → statement w w' → interleaved w'.

(** A computation all of whose effects are statements: from every world,
    the world it ends in, returning or raising, is reached by statements
    alone. *)
Definition covered {A} (m : M world A) : Prop :=
  ∀ w, rtc statement w (final (m w)).

(** What every interleaving keeps: the speed setting is a percentage and
    each PWM object carries a duty cycle that the driver accepts. *)
Record accepted_settings (w : world) : Prop := AcceptedSettings {
  setting_is_percentage : (0 ≤ current_speed (self w) ≤ 100)%Z;
  duty_a_accepted :
    PWM.valid_dutycycle (PWM.dutycycle (pwm_a (self w))) = true;
  duty_b_accepted :
    PWM.valid_dutycycle (PWM.dutycycle (pwm_b (self w))) = true
}.

(** The branch of the watchdog that fires, in two parts: the print and
    the forced stop (lines 148 and 149), then the flag and the pause
    (lines 150 and 151). *)
Definition watchdog_stops_motors : M world unit :=
  io (print "⚠️ Watchdog timeout - stopping motors") ;;
  _emergency_stop_motors.

Definition watchdog_clears_flag : M world unit :=
  setattr (with_is_moving false) ;;
  io (time_sleep 0.1).

(** The watchdog fires and, between its two parts, another thread makes
    [call].  An exception of [call] belongs to that thread. *)
Definition watchdog_preempted (call : M world unit) (w : world) : world :=
  final (watchdog_clears_flag
           (final (call (final (watchdog_stops_motors w))))).

(** The process after the writes of the constructor. *)
Definition constructor_writes (p : process) : process :=
  emit (Print "🛡️ Safe Motor Controller initialized with watchdog protection")
    (GPIO.write 7 HIGH (GPIO.configure 7
      (GPIO.write 12 LOW (GPIO.configure 12
        (GPIO.write 18 LOW (GPIO.configure 18
          (GPIO.write 8 LOW (GPIO.configure 8
            (GPIO.write 25 LOW (GPIO.configure 25
              (GPIO.write 24 LOW (GPIO.configure 24
                (GPIO.write 23 LOW (GPIO.configure 23
                  (GPIO.set_warnings false
                     (GPIO.set_mode BCM p)))))))))))))))).

(** The movement tokens of the dispatcher. *)
Definition movement_tokens : list string :=
  ["forward"; "backward"; "left"; "right"].

(** What a movement method leaves behind when the driver raises. *)
Definition direction_switched_only (move : option Q → M world unit)
  (pins : list (option level)) (speed : option Q) (w : world) : Prop :=
  ∃ w', move speed w
        = Raise (ValueError_dutycycle (effective_speed speed (self w))) w'
    ∧ direction_pins (proc w') = pins
    ∧ pin_level (proc w') WATCHDOG_PIN = Some HIGH
    ∧ enable_duty (self w') = enable_duty (self w)
    ∧ is_moving (self w') = is_moving (self w)
    ∧ last_command_time (self w') = clock (proc w).

(** The world after [n] pauses of the watchdog loop. *)
Fixpoint pauses (n : nat) (w : world) : world :=
  match n with
  | O => w
  | S k => pauses k (after 0.1 w)
  end.

(** The time since the last command. *)
Definition command_age (w : world) : Q :=
  clock (proc w) - last_command_time (self w).

(** The watchdog loop as the scheduler runs it.  Before each check the
    thread is held up for a while: the sleep before it lasts longer than
    asked, other threads run.  [delays] gives these latencies, one per
    iteration; the iterations are those of [_watchdog_loop]. *)
Fixpoint watchdog_run (delays : list Q) : M world unit :=
  match delays with
  | [] => mret tt
  | delay :: delays' =>
      active ← getattr watchdog_active;
      if active : bool then
        modify (after delay) ;;
        _watchdog_iteration ;;
        watchdog_run delays'
      else mret tt
  end.

(** The time from the start of [watchdog_run (delay :: delays)] to its
    last check: the latencies, and the pause of 0.1 s of every iteration
    before the last. *)
Fixpoint last_check (delay : Q) (delays : list Q) : Q :=
  match delays with
  | [] => delay
  | delay' :: delays' => delay + 0.1 + last_check delay' delays'
  end.

(** Latencies are not negative. *)
Definition latencies (delays : list Q) : Prop :=
  Forall (λ delay : Q, (0 <= delay)%Q) delays.

(** A stopped controller: not moving, both duty cycles 0, IN1..IN4 LOW. *)
Definition at_rest (w : world) : Prop :=
  is_moving (self w) = false
  ∧ enable_duty (self w) = (0%Q, 0%Q)
  ∧ direction_pins (proc w) = [Some LOW; Some LOW; Some LOW; Some LOW].

(** The world in which the callback calls a method: the timestamp is
    already refreshed. *)
Definition stamped (w : world) : world :=
  {| proc := proc w;
     self := with_last_command_time (clock (proc w)) (self w) |}.

(** The outcome of a call that drives the robot: it returns, the
    direction pins read [pins], both duty cycles are [duty], [is_moving]
    is set and the timestamp is [now]. *)
Definition drives (r : result world unit) (pins : list (option level))
  (duty now : Q) : Prop :=
  ∃ w', r = Ok tt w'
    ∧ direction_pins (proc w') = pins
    ∧ enable_duty (self w') = (duty, duty)
    ∧ is_moving (self w') = true
    ∧ last_command_time (self w') = now.

(** Half speed in reverse, with a slight turn. *)
Definition reverse_twist : geometry_msgs.Twist :=
  {| geometry_msgs.linear :=
       {| geometry_msgs.x := - 0.5; geometry_msgs.y := 0;
          geometry_msgs.z := 0 |};
     geometry_msgs.angular :=
       {| geometry_msgs.x := 0; geometry_msgs.y := 0;
          geometry_msgs.z := 0.2 |} |}.

(** Equal magnitudes on both axes. *)
Definition tie_twist : geometry_msgs.Twist :=
  {| geometry_msgs.linear :=
       {| geometry_msgs.x := 0.5; geometry_msgs.y := 0;
          geometry_msgs.z := 0 |};
     geometry_msgs.angular :=
       {| geometry_msgs.x := 0; geometry_msgs.y := 0;
          geometry_msgs.z := - 0.5 |} |}.

(** The zero velocity message. *)
Definition zero_twist : geometry_msgs.Twist :=
  {| geometry_msgs.linear :=
       {| geometry_msgs.x := 0; geometry_msgs.y := 0;
          geometry_msgs.z := 0 |};
     geometry_msgs.angular :=
       {| geometry_msgs.x := 0; geometry_msgs.y := 0;
          geometry_msgs.z := 0 |} |}.

(** A pure rotation at exactly the float [0.1]. *)
Definition threshold_twist : geometry_msgs.Twist :=
  {| geometry_msgs.linear :=
       {| geometry_msgs.x := 0; geometry_msgs.y := 0;
          geometry_msgs.z := 0 |};
     geometry_msgs.angular :=
       {| geometry_msgs.x := 0; geometry_msgs.y := 0;
          geometry_msgs.z := float_0_1 |} |}.

(** The accuracy of one multiplication of doubles, rounded to nearest:
    the computed product is the exact one up to a relative error of
    2^-53, or up to 2^-1075 where the product is subnormal.  The exact
    product itself is within this bound. *)
Definition rounded (exact computed : Q) : Prop :=
  (Qabs (computed - exact)
   <= Qabs exact * (1 # Pos.pow 2 53) + (1 # Pos.pow 2 1075))%Q.

(** The outcome of a velocity command that drives the robot: as [drives],
    with one duty cycle on both channels that the driver accepts, is not
    0, and is [percent] up to the rounding of the product. *)
Definition drives_at (r : result world unit) (pins : list (option level))
  (percent now : Q) : Prop :=
  ∃ duty, drives r pins duty now
    ∧ (0 < duty <= 100)%Q
    ∧ rounded percent duty.

(** A call on the command path: a movement method with any speed,
    [stop], [set_speed], or the velocity callback with any message. *)
Inductive command_call (w : world) : world → Prop :=
| call_move_forward speed : command_call w (final (move_forward speed w))
| call_move_backward speed : command_call w (final (move_backward speed w))
| call_turn_left speed : command_call w (final (turn_left speed w))
| call_turn_right speed : command_call w (final (turn_right speed w))
| call_stop : command_call w (final (stop w))
| call_set_speed speed : command_call w (final (set_speed speed w))
| call_cmd_vel msg :
    command_call w (final (SafeRobotCarNode.cmd_vel_callback msg w)).

(** A world whose timestamp is the current time and whose watchdog flag
    is that of [w]. *)
Definition just_commanded (w w' : world) : Prop :=
  last_command_time (self w') = clock (proc w')
  ∧ watchdog_active (self w') = watchdog_active (self w)
  ∧ clock (proc w') = clock (proc w).

(** ** Properties *)

(** *** Arithmetic on the comparisons of the source *)

Lemma Qgtb_true (a b : Q) : Qgtb a b = true ↔ (b < a)%Q.
Proof.
  unfold Qgtb. rewrite negb_true_iff, <- not_true_iff_false, Qle_bool_iff.
  split; [apply Qnot_le_lt | apply Qlt_not_le].
Qed.

Lemma Qgtb_false (a b : Q) : Qgtb a b = false ↔ (a <= b)%Q.
Proof.
  unfold Qgtb. rewrite negb_false_iff. apply Qle_bool_iff.
Qed.

Lemma clamp_max_min (p : Z) : Z.max 0 (Z.min 100 p) = clamp p 0 100.
Proof.
  unfold clamp.
  destruct (Z.ltb_spec p 0), (Z.ltb_spec 100 p); lia.
Qed.

Lemma clamp_range (p : Z) : (0 ≤ clamp p 0 100 ≤ 100)%Z.
Proof.
  unfold clamp.
  destruct (Z.ltb_spec p 0), (Z.ltb_spec 100 p); lia.
Qed.

Lemma valid_dutycycle_spec (dc : Q) :
  PWM.valid_dutycycle dc = true ↔ (0 <= dc <= 100)%Q.
Proof.
  unfold PWM.valid_dutycycle.
  rewrite andb_true_iff, !Qle_bool_iff. reflexivity.
Qed.

Lemma valid_dutycycle_percent (n : Z) :
  (0 ≤ n ≤ 100)%Z → PWM.valid_dutycycle (inject_Z n) = true.
Proof.
  intros [H0 H100]. apply valid_dutycycle_spec. split.
  - change 0%Q with (inject_Z 0). now rewrite <- Zle_Qle.
  - change 100%Q with (inject_Z 100). now rewrite <- Zle_Qle.
Qed.

(** With no argument the effective speed is [current_speed], which the
    driver accepts as long as it is a percentage. *)
Lemma current_speed_accepted (c : t) :
  (0 ≤ current_speed c ≤ 100)%Z →
  PWM.valid_dutycycle (effective_speed None c) = true.
Proof. apply valid_dutycycle_percent. Qed.

(** The example world is the one the constructor builds. *)
Lemma idle_world_constructed :
  __init__ boot = Ok idle_controller (proc idle_world).
Proof. vm_compute. reflexivity. Qed.

(** *** What each method does to the world *)

Lemma update_command_time_run (w : world) :
  _update_command_time w =
  Ok tt {| proc := proc w;
           self := with_last_command_time (clock (proc w)) (self w) |}.
Proof. reflexivity. Qed.

Lemma emergency_stop_motors_run (w : world) :
  _emergency_stop_motors w =
  Ok tt
    {| proc :=
         GPIO.write WATCHDOG_PIN LOW
           (GPIO.write 8 LOW (GPIO.write 25 LOW
              (GPIO.write 24 LOW (GPIO.write 23 LOW (proc w)))));
       self :=
         with_pwm_b (PWM.with_dutycycle 0 (pwm_b (self w)))
           (with_pwm_a (PWM.with_dutycycle 0 (pwm_a (self w))) (self w)) |}.
Proof. reflexivity. Qed.

Lemma stop_run (w : world) :
  stop w =
  Ok tt
    {| proc :=
         GPIO.write 8 LOW (GPIO.write 25 LOW
           (GPIO.write 24 LOW (GPIO.write 23 LOW (proc w))));
       self :=
         with_is_moving false
           (with_pwm_b (PWM.with_dutycycle 0 (pwm_b (self w)))
              (with_pwm_a (PWM.with_dutycycle 0 (pwm_a (self w)))
                 (with_last_command_time (clock (proc w)) (self w)))) |}.
Proof. reflexivity. Qed.

Lemma set_speed_run (speed : Z) (w : world) :
  set_speed speed w =
  Ok tt
    {| proc := proc w;
       self :=
         with_current_speed (Z.max 0 (Z.min 100 speed))
           (with_last_command_time (clock (proc w)) (self w)) |}.
Proof. reflexivity. Qed.

(** *** Reading pins back after writes *)

Lemma pin_level_write (p : process) (ch ch' : Z) (v : level) :
  pin_level (GPIO.write ch v p) ch' =
  if decide (ch = ch') then Some v else pin_level p ch'.
Proof.
  unfold pin_level, GPIO.write, with_gpio. cbn [gpio output_level].
  apply lookup_insert.
Qed.

Lemma pin_level_emit (p : process) (e : event) (ch : Z) :
  pin_level (emit e p) ch = pin_level p ch.
Proof. reflexivity. Qed.

Lemma pin_level_elapse (p : process) (d : Q) (ch : Z) :
  pin_level (elapse d p) ch = pin_level p ch.
Proof. reflexivity. Qed.

Ltac read_pins :=
  unfold direction_pins, motor_pin_level;
  cbn [map dict_get MOTOR_PINS String.eqb Ascii.eqb Bool.eqb andb
       proc self];
  unfold WATCHDOG_PIN;
  rewrite ?pin_level_emit, ?pin_level_elapse, ?pin_level_write;
  repeat (case_decide; [try discriminate | try congruence]);
  reflexivity.

(** Two maps with the same lookups after the same writes are equal. *)
Ltac same_writes :=
  apply map_eq; intros ?; rewrite !lookup_insert;
  repeat case_decide; congruence.

Lemma stop_writes_absorb (p : process) :
  GPIO.write WATCHDOG_PIN LOW
    (GPIO.write 8 LOW (GPIO.write 25 LOW
       (GPIO.write 24 LOW (GPIO.write 23 LOW
          (GPIO.write WATCHDOG_PIN LOW
             (GPIO.write 8 LOW (GPIO.write 25 LOW
                (GPIO.write 24 LOW (GPIO.write 23 LOW p)))))))))
  = GPIO.write WATCHDOG_PIN LOW
      (GPIO.write 8 LOW (GPIO.write 25 LOW
         (GPIO.write 24 LOW (GPIO.write 23 LOW p)))).
Proof.
  destruct p as [[md wr cf ol] clk con].
  cbv beta iota zeta delta [GPIO.write with_gpio gpio clock console mode
    warnings configured output_level]. do 2 f_equal. same_writes.
Qed.

(** *** C2: the emergency stop *)

(** C2. From every world, [_emergency_stop_motors] returns normally and
    leaves IN1..IN4 LOW, both enable channels at duty 0 and the hardware
    watchdog pin LOW; running it a second time changes nothing. *)
Theorem emergency_stop_motors_safe_idempotent (w : world) :
  ∃ w', _emergency_stop_motors w = Ok tt w'
    ∧ direction_pins (proc w') = [Some LOW; Some LOW; Some LOW; Some LOW]
    ∧ enable_duty (self w') = (0%Q, 0%Q)
    ∧ truthy WATCHDOG_PIN = true
    ∧ pin_level (proc w') WATCHDOG_PIN = Some LOW
    ∧ _emergency_stop_motors w' = Ok tt w'.
Proof.
  eexists. split; [apply emergency_stop_motors_run |].
  split; [read_pins |].
  split; [reflexivity |].
  split; [reflexivity |].
  split; [read_pins |].
  rewrite emergency_stop_motors_run.
  cbn [proc self]. rewrite (stop_writes_absorb (proc w)).
  destruct w as [p [f a b cs lt mv wa]]. reflexivity.
Qed.

(** *** The watchdog step *)

(** Expose the test that the watchdog makes on the clock. *)
Ltac watchdog_test :=
  cbv beta iota delta
    [_watchdog_iteration try_except mbind M_bind io zoom time_time gets
     getattr when proc self clock last_command_time is_moving].

Lemma watchdog_iteration_fires (w : world) :
  is_moving (self w) = true →
  (WATCHDOG_TIMEOUT < clock (proc w) - last_command_time (self w))%Q →
  _watchdog_iteration w = forced_stop_path w.
Proof.
  intros Hm Ht. apply Qgtb_true in Ht.
  destruct w as [[g clk con] [f a b cs lt mv wa]].
  cbn [proc self clock last_command_time is_moving] in Hm, Ht. subst mv.
  watchdog_test. rewrite Ht. reflexivity.
Qed.

Lemma watchdog_iteration_quiet (w : world) :
  is_moving (self w) = false
  ∨ (clock (proc w) - last_command_time (self w) <= WATCHDOG_TIMEOUT)%Q →
  _watchdog_iteration w = Ok tt (after 0.1 w).
Proof.
  intros H.
  destruct w as [[g clk con] [f a b cs lt mv wa]].
  cbn [proc self clock last_command_time is_moving] in H.
  watchdog_test.
  destruct (Qgtb (clk - lt) WATCHDOG_TIMEOUT) eqn:Ht; [| reflexivity].
  destruct H as [Hm | Hle].
  - subst mv. reflexivity.
  - apply Qgtb_false in Hle. congruence.
Qed.

Lemma forced_stop_path_run (w : world) :
  forced_stop_path w =
  Ok tt
    {| proc :=
         elapse 0.1
           (GPIO.write WATCHDOG_PIN LOW
              (GPIO.write 8 LOW (GPIO.write 25 LOW
                 (GPIO.write 24 LOW (GPIO.write 23 LOW
                    (emit (Print "⚠️ Watchdog timeout - stopping motors")
                       (proc w)))))));
       self :=
         with_is_moving false
           (with_pwm_b (PWM.with_dutycycle 0 (pwm_b (self w)))
              (with_pwm_a (PWM.with_dutycycle 0 (pwm_a (self w)))
                 (self w))) |}.
Proof. reflexivity. Qed.

(** Who writes [is_moving]: nobody outside the command path, except the
    watchdog when it fires. *)
Lemma heartbeat_keeps_is_moving (hs : bool) (w : world) :
  is_moving (self (final (_heartbeat_iteration hs w))) = is_moving (self w).
Proof.
  destruct w as [p [f a b cs lt mv wa]]. destruct mv, hs; reflexivity.
Qed.

Lemma emergency_stop_motors_keeps_is_moving (w : world) :
  is_moving (self (final (_emergency_stop_motors w))) = is_moving (self w).
Proof. reflexivity. Qed.

Lemma set_speed_keeps_is_moving (speed : Z) (w : world) :
  is_moving (self (final (set_speed speed w))) = is_moving (self w).
Proof. reflexivity. Qed.

Lemma cleanup_keeps_is_moving (w : world) :
  is_moving (self (final (cleanup w))) = is_moving (self w).
Proof. reflexivity. Qed.

Lemma emergency_stop_keeps_self (w : world) :
  self (final (io emergency_stop w)) = self w.
Proof. reflexivity. Qed.

Lemma watchdog_flips_only_on_timeout (w : world) :
  is_moving (self (final (_watchdog_iteration w))) = is_moving (self w)
  ∨ (is_moving (self w) = true
     ∧ (WATCHDOG_TIMEOUT < clock (proc w) - last_command_time (self w))%Q).
Proof.
  destruct (is_moving (self w)) eqn:Hm.
  - destruct (Qlt_le_dec WATCHDOG_TIMEOUT
                (clock (proc w) - last_command_time (self w))) as [Ht | Ht].
    + right. split; [reflexivity | exact Ht].
    + left. rewrite watchdog_iteration_quiet by (right; exact Ht).
      cbn. exact Hm.
  - left. rewrite watchdog_iteration_quiet by (left; exact Hm).
    cbn. exact Hm.
Qed.

(** *** C1: the watchdog *)

(** C1. When [is_moving] is true and the clock is more than
    [WATCHDOG_TIMEOUT] past [last_command_time], the next watchdog
    iteration runs the forced-stop path: both enable channels at duty 0,
    IN1..IN4 LOW, [is_moving] false.  Outside the command path nothing
    else writes [is_moving]: not the heartbeat, the emergency stop,
    [set_speed], [cleanup] or the shutdown hook, and the watchdog itself
    only when it fires. *)
Theorem watchdog_timeout_forces_stop (w : world)
  (Hmoving : is_moving (self w) = true)
  (Hsilent :
     (WATCHDOG_TIMEOUT < clock (proc w) - last_command_time (self w))%Q) :
  (∃ w', _watchdog_iteration w = Ok tt w'
     ∧ forced_stop_path w = Ok tt w'
     ∧ enable_duty (self w') = (0%Q, 0%Q)
     ∧ direction_pins (proc w') = [Some LOW; Some LOW; Some LOW; Some LOW]
     ∧ is_moving (self w') = false)
  ∧ (∀ v hs,
       is_moving (self (final (_heartbeat_iteration hs v)))
       = is_moving (self v))
  ∧ (∀ v,
       is_moving (self (final (_emergency_stop_motors v)))
       = is_moving (self v))
  ∧ (∀ v speed,
       is_moving (self (final (set_speed speed v))) = is_moving (self v))
  ∧ (∀ v, is_moving (self (final (cleanup v))) = is_moving (self v))
  ∧ (∀ v, self (final (io emergency_stop v)) = self v)
  ∧ (∀ v,
       is_moving (self (final (_watchdog_iteration v))) = is_moving (self v)
       ∨ (is_moving (self v) = true
          ∧ (WATCHDOG_TIMEOUT
             < clock (proc v) - last_command_time (self v))%Q)).
Proof.
  split.
  - eexists. rewrite (watchdog_iteration_fires w Hmoving Hsilent).
    split; [apply forced_stop_path_run |].
    split; [apply forced_stop_path_run |].
    split; [reflexivity |].
    split; [read_pins | reflexivity].
  - split; [intros; apply heartbeat_keeps_is_moving |].
    split; [intros; apply emergency_stop_motors_keeps_is_moving |].
    split; [intros; apply set_speed_keeps_is_moving |].
    split; [intros; apply cleanup_keeps_is_moving |].
    split; [intros; apply emergency_stop_keeps_self |].
    intros; apply watchdog_flips_only_on_timeout.
Qed.

Lemma watchdog_timeout_forces_stop_witness :
  is_moving (self silent_forward_world) = true
  ∧ (WATCHDOG_TIMEOUT
     < clock (proc silent_forward_world)
       - last_command_time (self silent_forward_world))%Q
  ∧ is_moving (self (final (_watchdog_iteration silent_forward_world)))
    = false.
Proof.
  assert (Hm : is_moving (self silent_forward_world) = true)
    by reflexivity.
  assert (Hs : (WATCHDOG_TIMEOUT
                < clock (proc silent_forward_world)
                  - last_command_time (self silent_forward_world))%Q)
    by (vm_compute; reflexivity).
  split; [exact Hm |]. split; [exact Hs |].
  destruct (watchdog_timeout_forces_stop silent_forward_world Hm Hs)
    as [[w' (Hrun & _ & _ & _ & Hstop)] _].
  rewrite Hrun. exact Hstop.
Defined.

(** *** C4: set_speed *)

(** C4. For every integer [p], [set_speed p] stores [clamp p 0 100] in
    [current_speed] and the current time in [last_command_time]; the
    process (so every pin), both PWM objects (so both duty cycles),
    [is_moving] and [watchdog_active] stay as they were. *)
Theorem set_speed_clamps (p : Z) (w : world) :
  ∃ w', set_speed p w = Ok tt w'
    ∧ current_speed (self w') = clamp p 0 100
    ∧ (0 ≤ current_speed (self w') ≤ 100)%Z
    ∧ last_command_time (self w') = clock (proc w)
    ∧ proc w' = proc w
    ∧ direction_pins (proc w') = direction_pins (proc w)
    ∧ pwm_a (self w') = pwm_a (self w)
    ∧ pwm_b (self w') = pwm_b (self w)
    ∧ enable_duty (self w') = enable_duty (self w)
    ∧ is_moving (self w') = is_moving (self w)
    ∧ watchdog_active (self w') = watchdog_active (self w).
Proof.
  eexists. split; [apply set_speed_run |]. cbn [proc self].
  split; [apply clamp_max_min |].
  split; [cbn; rewrite clamp_max_min; apply clamp_range |].
  repeat split.
Qed.

(** *** C5: stop, and the watchdog after it *)

(** C5. [stop] puts both enable channels at duty 0 and IN1..IN4 LOW, clears
    [is_moving] and stores the current time in [last_command_time].  A
    watchdog iteration that follows, at once or after any delay, prints
    nothing and writes no pin: it only pauses for 0.1 s. *)
Theorem stop_then_watchdog_quiet (w : world) :
  ∃ w', stop w = Ok tt w'
    ∧ enable_duty (self w') = (0%Q, 0%Q)
    ∧ direction_pins (proc w') = [Some LOW; Some LOW; Some LOW; Some LOW]
    ∧ is_moving (self w') = false
    ∧ last_command_time (self w') = clock (proc w)
    ∧ _watchdog_iteration w' = Ok tt (after 0.1 w')
    ∧ (∀ delay : Q,
         _watchdog_iteration (after delay w')
         = Ok tt (after 0.1 (after delay w')))
    ∧ console (proc (final (_watchdog_iteration w'))) = console (proc w')
    ∧ gpio (proc (final (_watchdog_iteration w'))) = gpio (proc w')
    ∧ self (final (_watchdog_iteration w')) = self w'.
Proof.
  eexists. split; [apply stop_run |].
  split; [reflexivity |].
  split; [read_pins |].
  split; [reflexivity |].
  split; [reflexivity |].
  split; [apply watchdog_iteration_quiet; left; reflexivity |].
  split; [intros; apply watchdog_iteration_quiet; left; reflexivity |].
  rewrite watchdog_iteration_quiet by (left; reflexivity).
  repeat split.
Qed.

(** *** The movement methods *)

(** Run a movement method on a world given by its components. *)
Ltac run_method :=
  cbv beta iota delta
    [move_forward move_backward turn_left turn_right
     mbind M_bind mret M_ret raise gets modify when
     _update_command_time io zoom time_time getattr setattr
     speed_or_current output_motor_pin getitem dict_get MOTOR_PINS
     String.eqb Ascii.eqb Bool.eqb andb truthy WATCHDOG_PIN Z.eqb negb
     GPIO.output pwm_a_ChangeDutyCycle pwm_b_ChangeDutyCycle call_on
     PWM.ChangeDutyCycle proc self pwm_freq pwm_a pwm_b current_speed
     last_command_time is_moving watchdog_active
     with_last_command_time with_pwm_a with_pwm_b with_is_moving
     effective_speed].

Ltac run_move speed w Hv :=
  destruct w as [p [f a b cs lt mv wa]];
  destruct speed as [v |];
  cbn [effective_speed self current_speed] in Hv;
  run_method; rewrite Hv; reflexivity.

Lemma move_forward_run (speed : option Q) (w : world) :
  PWM.valid_dutycycle (effective_speed speed (self w)) = true →
  move_forward speed w = Ok tt (driven HIGH LOW HIGH LOW speed w).
Proof. intros Hv. run_move speed w Hv. Qed.

Lemma move_backward_run (speed : option Q) (w : world) :
  PWM.valid_dutycycle (effective_speed speed (self w)) = true →
  move_backward speed w = Ok tt (driven LOW HIGH LOW HIGH speed w).
Proof. intros Hv. run_move speed w Hv. Qed.

Lemma turn_left_run (speed : option Q) (w : world) :
  PWM.valid_dutycycle (effective_speed speed (self w)) = true →
  turn_left speed w = Ok tt (driven LOW HIGH HIGH LOW speed w).
Proof. intros Hv. run_move speed w Hv. Qed.

Lemma turn_right_run (speed : option Q) (w : world) :
  PWM.valid_dutycycle (effective_speed speed (self w)) = true →
  turn_right speed w = Ok tt (driven HIGH LOW LOW HIGH speed w).
Proof. intros Hv. run_move speed w Hv. Qed.

Lemma move_forward_refused (speed : option Q) (w : world) :
  PWM.valid_dutycycle (effective_speed speed (self w)) = false →
  move_forward speed w =
  Raise (ValueError_dutycycle (effective_speed speed (self w)))
    (refused HIGH LOW HIGH LOW w).
Proof. intros Hv. run_move speed w Hv. Qed.

Lemma move_backward_refused (speed : option Q) (w : world) :
  PWM.valid_dutycycle (effective_speed speed (self w)) = false →
  move_backward speed w =
  Raise (ValueError_dutycycle (effective_speed speed (self w)))
    (refused LOW HIGH LOW HIGH w).
Proof. intros Hv. run_move speed w Hv. Qed.

Lemma turn_left_refused (speed : option Q) (w : world) :
  PWM.valid_dutycycle (effective_speed speed (self w)) = false →
  turn_left speed w =
  Raise (ValueError_dutycycle (effective_speed speed (self w)))
    (refused LOW HIGH HIGH LOW w).
Proof. intros Hv. run_move speed w Hv. Qed.

Lemma turn_right_refused (speed : option Q) (w : world) :
  PWM.valid_dutycycle (effective_speed speed (self w)) = false →
  turn_right speed w =
  Raise (ValueError_dutycycle (effective_speed speed (self w)))
    (refused HIGH LOW LOW HIGH w).
Proof. intros Hv. run_move speed w Hv. Qed.

Lemma driven_as_commanded (move : option Q → M world unit)
  (l1 l2 l3 l4 : level) (speed : option Q) (w : world) :
  move speed w = Ok tt (driven l1 l2 l3 l4 speed w) →
  moves_as_commanded move [Some l1; Some l2; Some l3; Some l4] speed w.
Proof.
  intros Hrun. exists (driven l1 l2 l3 l4 speed w).
  split; [exact Hrun |].
  split; [unfold driven; read_pins |].
  split; reflexivity.
Qed.

(** *** C3: the direction-pin truth table *)

(** C3 (amended). When the effective speed (the explicit argument if given,
    otherwise [current_speed]) is a duty cycle the driver accepts, from 0 to
    100, each of Forward, Backward, Left and Right returns with the
    direction pins of the truth table, both enable channels at the
    effective speed and [is_moving] true. *)
Theorem movement_truth_table (speed : option Q) (w : world)
  (Hvalid : PWM.valid_dutycycle (effective_speed speed (self w)) = true) :
  moves_as_commanded move_forward
    [Some HIGH; Some LOW; Some HIGH; Some LOW] speed w
  ∧ moves_as_commanded move_backward
      [Some LOW; Some HIGH; Some LOW; Some HIGH] speed w
  ∧ moves_as_commanded turn_left
      [Some LOW; Some HIGH; Some HIGH; Some LOW] speed w
  ∧ moves_as_commanded turn_right
      [Some HIGH; Some LOW; Some LOW; Some HIGH] speed w.
Proof.
  split; [apply driven_as_commanded, move_forward_run, Hvalid |].
  split; [apply driven_as_commanded, move_backward_run, Hvalid |].
  split; [apply driven_as_commanded, turn_left_run, Hvalid |].
  apply driven_as_commanded, turn_right_run, Hvalid.
Qed.

(** The scenario of the specification: [forward] with no argument while
    [current_speed] is 70. *)
Lemma movement_truth_table_witness :
  PWM.valid_dutycycle (effective_speed None (self idle_world)) = true
  ∧ moves_as_commanded move_forward
      [Some HIGH; Some LOW; Some HIGH; Some LOW] None idle_world
  ∧ effective_speed None (self idle_world) = 70%Q.
Proof.
  assert (Hv : PWM.valid_dutycycle (effective_speed None (self idle_world))
               = true) by reflexivity.
  split; [exact Hv |].
  split; [exact (proj1 (movement_truth_table None idle_world Hv)) |].
  reflexivity.
Defined.

(** C3 as stated fails for an explicit speed outside 0..100: the driver
    raises, no duty cycle is written and [is_moving] is not set. *)
Lemma movement_truth_table_fails_for_150 :
  ¬ moves_as_commanded move_forward
      [Some HIGH; Some LOW; Some HIGH; Some LOW] (Some 150%Q) idle_world.
Proof.
  intros [w' [Hrun _]].
  rewrite move_forward_refused in Hrun by reflexivity.
  discriminate Hrun.
Qed.

(** *** The velocity path *)

Lemma Qabs_percent (v : Q) : (1 < Qabs v)%Q → (100 < Qabs (v * 100))%Q.
Proof.
  intros H. rewrite Qabs_Qmult.
  change (Qabs 100) with 100%Q. lra.
Qed.

Lemma valid_dutycycle_above (dc : Q) :
  (100 < dc)%Q → PWM.valid_dutycycle dc = false.
Proof.
  intros H. destruct (PWM.valid_dutycycle dc) eqn:Hv; [| reflexivity].
  apply valid_dutycycle_spec in Hv. lra.
Qed.

Lemma Qabs_gt_sign (v : Q) :
  (1 < Qabs v)%Q → Qgtb v 0 = true ∨ (Qgtb v 0 = false ∧ Qltb v 0 = true).
Proof.
  intros H. destruct (Qgtb v 0) eqn:Hpos; [left; reflexivity | right].
  split; [reflexivity |].
  apply Qgtb_false in Hpos. unfold Qltb.
  apply negb_true_iff, not_true_iff_false. rewrite Qle_bool_iff.
  intros Hge. assert (Hz : (v == 0)%Q) by lra.
  rewrite Hz in H. change (Qabs 0) with 0%Q in H. lra.
Qed.

Lemma cmd_vel_callback_fast (msg : geometry_msgs.Twist) (w : world) :
  let linear_x := geometry_msgs.x (geometry_msgs.linear msg) in
  let angular_z := geometry_msgs.z (geometry_msgs.angular msg) in
  (Qabs angular_z < Qabs linear_x)%Q →
  (1 < Qabs linear_x)%Q →
  ∃ w', SafeRobotCarNode.cmd_vel_callback msg w
        = Raise (ValueError_dutycycle (Qabs (linear_x * 100))) w'
    ∧ enable_duty (self w') = enable_duty (self w)
    ∧ is_moving (self w') = is_moving (self w).
Proof.
  intros lx az Hdom Hfast.
  apply Qgtb_true in Hdom.
  pose proof (valid_dutycycle_above _ (Qabs_percent _ Hfast)) as Hv.
  unfold SafeRobotCarNode.cmd_vel_callback. cbv zeta.
  fold lx az. rewrite Hdom.
  set (w1 := {| proc := proc w;
                self := with_last_command_time (clock (proc w)) (self w) |}).
  destruct (Qabs_gt_sign _ Hfast) as [Hpos | [Hpos Hneg]].
  - rewrite Hpos.
    change ((_update_command_time ;;
             move_forward (Some (Qabs (lx * 100)))) w)
      with (move_forward (Some (Qabs (lx * 100))) w1).
    rewrite move_forward_refused by exact Hv.
    eexists. split; [reflexivity |]. split; reflexivity.
  - rewrite Hpos, Hneg.
    change ((_update_command_time ;;
             move_backward (Some (Qabs (lx * 100)))) w)
      with (move_backward (Some (Qabs (lx * 100))) w1).
    rewrite move_backward_refused by exact Hv.
    eexists. split; [reflexivity |]. split; reflexivity.
Qed.

Lemma explicit_speed_handed_to_driver
  (move : option Q → M world unit) (l1 l2 l3 l4 : level) :
  (∀ speed w,
     PWM.valid_dutycycle (effective_speed speed (self w)) = true →
     move speed w = Ok tt (driven l1 l2 l3 l4 speed w)) →
  (∀ speed w,
     PWM.valid_dutycycle (effective_speed speed (self w)) = false →
     move speed w =
     Raise (ValueError_dutycycle (effective_speed speed (self w)))
       (refused l1 l2 l3 l4 w)) →
  ∀ p w, handed_to_driver move p w.
Proof.
  intros Hrun Hrefused p w. unfold handed_to_driver.
  destruct (PWM.valid_dutycycle p) eqn:Hv.
  - exists (driven l1 l2 l3 l4 (Some p) w).
    split; [apply Hrun; exact Hv | reflexivity].
  - exists (refused l1 l2 l3 l4 w).
    split; [apply (Hrefused (Some p)); exact Hv |].
    split; reflexivity.
Qed.

(** *** C10: explicit speeds are not clamped *)

(** C10. The four movement methods hand an explicit speed [p] to the PWM
    driver as it is: inside 0..100 it becomes the duty cycle of both
    channels, outside the driver raises for [p] itself; only [set_speed]
    clamps.  On the velocity path, a linear velocity that dominates the
    angular one and exceeds 1 in magnitude commands the duty
    [|linear_x * 100|], which is above 100 and makes the driver raise. *)
Theorem explicit_speed_not_clamped (p : Q) (w : world)
  (msg : geometry_msgs.Twist)
  (Hdominant :
     (Qabs (geometry_msgs.z (geometry_msgs.angular msg))
      < Qabs (geometry_msgs.x (geometry_msgs.linear msg)))%Q)
  (Hfast : (1 < Qabs (geometry_msgs.x (geometry_msgs.linear msg)))%Q) :
  (handed_to_driver move_forward p w
   ∧ handed_to_driver move_backward p w
   ∧ handed_to_driver turn_left p w
   ∧ handed_to_driver turn_right p w)
  ∧ (∀ n : Z, current_speed (self (final (set_speed n w))) = clamp n 0 100)
  ∧ (100 < Qabs (geometry_msgs.x (geometry_msgs.linear msg) * 100))%Q
  ∧ PWM.valid_dutycycle
      (Qabs (geometry_msgs.x (geometry_msgs.linear msg) * 100)) = false
  ∧ (∃ w', SafeRobotCarNode.cmd_vel_callback msg w
           = Raise (ValueError_dutycycle
                      (Qabs (geometry_msgs.x (geometry_msgs.linear msg)
                             * 100))) w'
       ∧ enable_duty (self w') = enable_duty (self w)
       ∧ is_moving (self w') = is_moving (self w)).
Proof.
  split.
  - split; [| split; [| split]].
    + apply (explicit_speed_handed_to_driver _ _ _ _ _
               move_forward_run move_forward_refused).
    + apply (explicit_speed_handed_to_driver _ _ _ _ _
               move_backward_run move_backward_refused).
    + apply (explicit_speed_handed_to_driver _ _ _ _ _
               turn_left_run turn_left_refused).
    + apply (explicit_speed_handed_to_driver _ _ _ _ _
               turn_right_run turn_right_refused).
  - split; [intros n; apply clamp_max_min |].
    split; [apply Qabs_percent, Hfast |].
    split; [apply valid_dutycycle_above, Qabs_percent, Hfast |].
    apply (cmd_vel_callback_fast msg w Hdominant Hfast).
Qed.

Lemma explicit_speed_not_clamped_witness :
  (Qabs (geometry_msgs.z (geometry_msgs.angular fast_twist))
   < Qabs (geometry_msgs.x (geometry_msgs.linear fast_twist)))%Q
  ∧ (1 < Qabs (geometry_msgs.x (geometry_msgs.linear fast_twist)))%Q
  ∧ handed_to_driver move_forward 150 idle_world
  ∧ raised (SafeRobotCarNode.cmd_vel_callback fast_twist idle_world)
    = Some (ValueError_dutycycle (Qabs (1.5 * 100))).
Proof.
  assert (Hd : (Qabs (geometry_msgs.z (geometry_msgs.angular fast_twist))
                < Qabs (geometry_msgs.x (geometry_msgs.linear fast_twist)))%Q)
    by (vm_compute; reflexivity).
  assert (Hf : (1 < Qabs (geometry_msgs.x (geometry_msgs.linear fast_twist)))%Q)
    by (vm_compute; reflexivity).
  split; [exact Hd |]. split; [exact Hf |].
  destruct (explicit_speed_not_clamped 150 idle_world fast_twist Hd Hf)
    as [[Hfwd _] (_ & _ & _ & [w' [Hrun _]])].
  split; [exact Hfwd |].
  rewrite Hrun. reflexivity.
Defined.

(** *** The shutdown path *)

Lemma emergency_stop_run (p : process) :
  emergency_stop p =
  Ok tt (emit (Print "🛑 Emergency stop executed") (hook_writes p)).
Proof. reflexivity. Qed.

Ltac unfold_gpio :=
  cbv beta iota zeta delta
    [hook_writes emit elapse GPIO.write GPIO.configure GPIO.set_mode
     GPIO.set_warnings GPIO.release with_gpio gpio clock console mode
     warnings configured output_level].

Ltac same_channels :=
  rewrite ?elem_of_union, ?elem_of_singleton; tauto.

Lemma hook_writes_gpio_absorb (p : process) (e : event) :
  gpio (hook_writes (emit e (hook_writes p))) = gpio (hook_writes p).
Proof.
  destruct p as [[md wr cf ol] clk con]. unfold_gpio.
  f_equal; [apply set_eq; intros ?; same_channels | same_writes].
Qed.

Lemma pin_level_configure (p : process) (ch ch' : Z) :
  pin_level (GPIO.configure ch p) ch' = pin_level p ch'.
Proof. reflexivity. Qed.

Lemma gpio_emit (p : process) (e : event) : gpio (emit e p) = gpio p.
Proof. reflexivity. Qed.

Lemma pin_levels_emit (p : process) (e : event) (channels : list Z) :
  map (pin_level (emit e p)) channels = map (pin_level p) channels.
Proof. reflexivity. Qed.

Ltac read_hook :=
  unfold hook_writes, WATCHDOG_PIN; cbn [map snd MOTOR_PINS replicate];
  repeat (rewrite pin_level_write || rewrite pin_level_configure);
  repeat (case_decide; [try discriminate | try congruence]);
  reflexivity.

Lemma hook_writes_motor_pins (p : process) :
  map (pin_level (hook_writes p)) (map snd MOTOR_PINS)
  = replicate 6 (Some LOW).
Proof. read_hook. Qed.

Lemma hook_writes_watchdog_pin (p : process) :
  pin_level (hook_writes p) WATCHDOG_PIN = Some LOW.
Proof. read_hook. Qed.

Lemma hook_writes_configured (p : process) :
  Forall (λ channel, channel ∈ configured (gpio (hook_writes p)))
    (WATCHDOG_PIN :: map snd MOTOR_PINS).
Proof.
  destruct p as [[md wr cf ol] clk con]. unfold_gpio.
  unfold WATCHDOG_PIN. cbn [map snd MOTOR_PINS].
  repeat constructor; same_channels.
Qed.

Lemma cleanup_run (w : world) :
  cleanup w =
  Ok tt
    {| proc :=
         emit (Print "✅ Motor controller cleanup complete")
           (GPIO.release
              (elapse 0.2
                 (GPIO.write WATCHDOG_PIN LOW
                    (GPIO.write 8 LOW (GPIO.write 25 LOW
                       (GPIO.write 24 LOW (GPIO.write 23 LOW
                          (emit (Print "🧹 Cleaning up motor controller...")
                             (proc w)))))))));
       self :=
         with_pwm_b
           (PWM.stop (PWM.with_dutycycle 0 (pwm_b (self w))))
           (with_pwm_a
              (PWM.stop (PWM.with_dutycycle 0 (pwm_a (self w))))
              (with_watchdog_active false (self w))) |}.
Proof. destruct w as [p [f a b cs lt mv wa]]. reflexivity. Qed.

(** After [cleanup] the watchdog loop makes no further iteration. *)
Lemma watchdog_loop_stops_after_cleanup (iterations : nat) (w : world) :
  _watchdog_loop iterations (final (cleanup w)) = Ok tt (final (cleanup w)).
Proof.
  rewrite cleanup_run. cbn [final]. destruct iterations; reflexivity.
Qed.

Lemma main_finally_run (w : world) :
  main_finally w =
  Ok tt
    {| proc :=
         emit (Print "🏁 Safe Robot Car Controller stopped")
           (emit (Print "🛑 Emergency stop executed")
              (hook_writes
                 (proc (final (cleanup
                    {| proc := emit (LogInfo "🛑 Shutting down safely...")
                                 (proc w);
                       self := self w |})))));
       self :=
         with_pwm_b
           (PWM.stop (PWM.with_dutycycle 0 (pwm_b (self w))))
           (with_pwm_a
              (PWM.stop (PWM.with_dutycycle 0 (pwm_a (self w))))
              (with_watchdog_active false (self w))) |}.
Proof. destruct w as [p [f a b cs lt mv wa]]. reflexivity. Qed.

(** *** C9: the shutdown hook *)

Lemma hook_writes_direction_pins (p : process) :
  direction_pins (hook_writes p)
  = [Some LOW; Some LOW; Some LOW; Some LOW].
Proof.
  unfold direction_pins, motor_pin_level.
  cbn [map dict_get MOTOR_PINS String.eqb Ascii.eqb Bool.eqb andb].
  read_hook.
Qed.

Lemma hook_writes_enable_pins (p : process) :
  motor_pin_level (hook_writes p) "ENA" = Some LOW
  ∧ motor_pin_level (hook_writes p) "ENB" = Some LOW.
Proof.
  unfold motor_pin_level.
  cbn [dict_get MOTOR_PINS String.eqb Ascii.eqb Bool.eqb andb].
  split; read_hook.
Qed.

Lemma outputs_inactive_after_hook (p : process) (c : t) (e1 e2 : event) :
  pwm_driving (pwm_a c) = false → pwm_driving (pwm_b c) = false →
  all_outputs_inactive
    {| proc := emit e1 (emit e2 (hook_writes p)); self := c |}.
Proof.
  intros Ha Hb.
  pose proof (hook_writes_direction_pins p) as Hdir.
  pose proof (hook_writes_enable_pins p) as [Hena Henb].
  pose proof (hook_writes_watchdog_pin p) as Hwd.
  unfold all_outputs_inactive, enables_inactive. cbn [proc self].
  split; [exact Hdir |]. split; [| exact Hwd].
  split; [exact Hena |]. split; [exact Henb |]. split; assumption.
Qed.

(** What the hook achieves beside a controller: the pins are written, and
    the enable channels are inactive exactly when no PWM object was
    driving them. *)
Lemma hook_beside_controller (p : process) (c : t) :
  let w' := final (io emergency_stop {| proc := p; self := c |}) in
  self w' = c
  ∧ direction_pins (proc w') = [Some LOW; Some LOW; Some LOW; Some LOW]
  ∧ pin_level (proc w') WATCHDOG_PIN = Some LOW
  ∧ (all_outputs_inactive w'
     ↔ pwm_driving (pwm_a c) = false ∧ pwm_driving (pwm_b c) = false).
Proof.
  cbv zeta. unfold io, zoom. cbn [proc self].
  rewrite emergency_stop_run. cbn [final proc self].
  pose proof (hook_writes_direction_pins p) as Hdir.
  pose proof (hook_writes_enable_pins p) as [Hena Henb].
  pose proof (hook_writes_watchdog_pin p) as Hwd.
  assert (Hd : direction_pins
                 (emit (Print "🛑 Emergency stop executed") (hook_writes p))
               = [Some LOW; Some LOW; Some LOW; Some LOW]) by exact Hdir.
  assert (Hw : pin_level
                 (emit (Print "🛑 Emergency stop executed") (hook_writes p))
                 WATCHDOG_PIN = Some LOW) by exact Hwd.
  split; [reflexivity |]. split; [exact Hd |]. split; [exact Hw |].
  unfold all_outputs_inactive, enables_inactive. cbn [proc self].
  split.
  - intros (_ & (_ & _ & Ha & Hb) & _). split; assumption.
  - intros [Ha Hb]. split; [exact Hd |]. split; [| exact Hw].
    split; [exact Hena |]. split; [exact Henb |]. split; assumption.
Qed.

(** C9 (amended). [emergency_stop] is a function of the process alone: it
    needs no controller object and takes its pins from [MOTOR_PINS] and
    [WATCHDOG_PIN].  From every process state (of a program that, like
    this one, uses BCM numbering only) it returns normally with the
    six motor and enable pins and the hardware-watchdog pin configured as
    outputs and written LOW; a second run returns as well and leaves the
    same GPIO state.  Run beside a controller it leaves the object as it
    is, the PWM objects included: IN1..IN4 and the watchdog pin are LOW,
    and the enable channels are inactive exactly when no PWM object was
    driving them before.  The teardown of a constructed controller,
    [cleanup], returns from every world with [watchdog_active] false, both
    duty cycles 0 and both PWM objects stopped, and the [finally] block of
    [main], which runs [cleanup] before the hook, ends with every output
    inactive. *)
Theorem shutdown_hook_total_idempotent (p : process)
  (Hmode : mode (gpio p) ≠ Some BOARD) :
  (∃ p', emergency_stop p = Ok tt p'
     ∧ map (pin_level p') (map snd MOTOR_PINS) = replicate 6 (Some LOW)
     ∧ pin_level p' WATCHDOG_PIN = Some LOW
     ∧ Forall (λ channel, channel ∈ configured (gpio p'))
         (WATCHDOG_PIN :: map snd MOTOR_PINS)
     ∧ ∃ p'', emergency_stop p' = Ok tt p'' ∧ gpio p'' = gpio p')
  ∧ (∀ c : t,
       io emergency_stop {| proc := p; self := c |}
       = Ok tt {| proc := final (emergency_stop p); self := c |})
  ∧ (∀ c : t,
       let w' := final (io emergency_stop {| proc := p; self := c |}) in
       self w' = c
       ∧ direction_pins (proc w') = [Some LOW; Some LOW; Some LOW; Some LOW]
       ∧ pin_level (proc w') WATCHDOG_PIN = Some LOW
       ∧ (all_outputs_inactive w'
          ↔ pwm_driving (pwm_a c) = false ∧ pwm_driving (pwm_b c) = false))
  ∧ (∀ c : t, ∃ w',
       cleanup {| proc := p; self := c |} = Ok tt w'
       ∧ watchdog_active (self w') = false
       ∧ enable_duty (self w') = (0%Q, 0%Q)
       ∧ PWM.running (pwm_a (self w')) = false
       ∧ PWM.running (pwm_b (self w')) = false)
  ∧ (∀ c : t, ∃ w',
       main_finally {| proc := p; self := c |} = Ok tt w'
       ∧ map (pin_level (proc w')) (map snd MOTOR_PINS)
         = replicate 6 (Some LOW)
       ∧ all_outputs_inactive w'
       ∧ enable_duty (self w') = (0%Q, 0%Q)
       ∧ watchdog_active (self w') = false).
Proof.
  split.
  - exists (emit (Print "🛑 Emergency stop executed") (hook_writes p)).
    split; [apply emergency_stop_run |].
    split; [rewrite pin_levels_emit; apply hook_writes_motor_pins |].
    split; [rewrite pin_level_emit; apply hook_writes_watchdog_pin |].
    split; [rewrite gpio_emit; apply (hook_writes_configured p) |].
    eexists. split; [apply emergency_stop_run |].
    rewrite !gpio_emit. apply hook_writes_gpio_absorb.
  - split; [intros c; rewrite emergency_stop_run; reflexivity |].
    split; [intros c; apply hook_beside_controller |].
    split.
    + intros c. eexists. split; [apply cleanup_run |].
      repeat split.
    + intros c. eexists. split; [apply main_finally_run |].
      split; [cbn [proc]; rewrite !pin_levels_emit;
              apply hook_writes_motor_pins |].
      split; [| split; reflexivity].
      apply outputs_inactive_after_hook; reflexivity.
Qed.

(** The hook in a process where nothing was ever set up. *)
Lemma shutdown_hook_total_idempotent_witness :
  mode (gpio boot) ≠ Some BOARD
  ∧ (∃ p', emergency_stop boot = Ok tt p'
       ∧ map (pin_level p') (map snd MOTOR_PINS) = replicate 6 (Some LOW)
       ∧ pin_level p' WATCHDOG_PIN = Some LOW).
Proof.
  assert (Hmode : mode (gpio boot) ≠ Some BOARD) by discriminate.
  split; [exact Hmode |].
  destruct (shutdown_hook_total_idempotent boot Hmode)
    as [[p' (Hrun & Hpins & Hwd & _)] _].
  exists p'. split; [exact Hrun |]. split; [exact Hpins | exact Hwd].
Defined.

(** C9 as stated fails beside a controller that is driving: after the
    hook both PWM objects are still running at duty 70, so the enable
    channels are not inactive. *)
Lemma shutdown_hook_leaves_pwm_running :
  enable_duty (self (final (io emergency_stop forward_world)))
  = (70%Q, 70%Q)
  ∧ PWM.running (pwm_a (self (final (io emergency_stop forward_world))))
    = true
  ∧ PWM.running (pwm_b (self (final (io emergency_stop forward_world))))
    = true
  ∧ ¬ all_outputs_inactive (final (io emergency_stop forward_world)).
Proof.
  split; [reflexivity |]. split; [reflexivity |]. split; [reflexivity |].
  intros (_ & (_ & _ & Ha & _) & _).
  rewrite emergency_stop_keeps_self in Ha. discriminate Ha.
Qed.

(** *** The dispatcher *)

Lemma execute_command_unknown (command : string) (w : world) :
  lower command ≠ "forward" → lower command ≠ "backward" →
  lower command ≠ "left" → lower command ≠ "right" →
  lower command ≠ "stop" → lower command ≠ "emergency_stop" →
  SafeRobotCarNode.execute_command command w =
  Ok tt
    {| proc := emit (LogWarn ("❓ Unknown command: " ++ lower command))
                 (proc w);
       self := self w |}.
Proof.
  intros Hf Hb Hl Hr Hs He.
  unfold SafeRobotCarNode.execute_command. cbv zeta.
  apply String.eqb_neq in Hf, Hb, Hl, Hr, Hs, He.
  rewrite Hf, Hb, Hl, Hr, Hs, He. reflexivity.
Qed.

(** *** C8: unknown commands *)

(** C8 (amended). The dispatcher lower-cases the token first.  For every
    ASCII token whose lower-case form is outside the valid set, it logs a
    warning that names the command and changes nothing else: no pin, no
    duty cycle, not [is_moving] nor any other attribute of the
    controller, so a motion in progress continues and no emergency stop
    takes place.  (A token with letters outside ASCII is left out: its
    lower-case form in Python can be a valid token.) *)
Theorem unknown_command_ignored (command : string) (w : world)
  (Hascii : ascii_text command = true)
  (Hunknown : lower command ∉ valid_tokens) :
  ignored_with_warning command w.
Proof.
  unfold valid_tokens in Hunknown.
  rewrite !not_elem_of_cons in Hunknown.
  destruct Hunknown as (Hf & Hb & Hl & Hr & Hs & _ & He & _).
  eexists. split; [apply execute_command_unknown; assumption |].
  repeat split.
Qed.

(** The scenario of the specification: [banana] while moving forward. *)
Lemma unknown_command_ignored_witness :
  ascii_text "banana" = true
  ∧ (lower "banana" ∉ valid_tokens)
  ∧ ignored_with_warning "banana" forward_world
  ∧ is_moving (self forward_world) = true.
Proof.
  assert (Ha : ascii_text "banana" = true) by reflexivity.
  assert (H : lower "banana" ∉ valid_tokens)
    by (apply (bool_decide_unpack _); vm_compute; exact I).
  split; [exact Ha |]. split; [exact H |].
  split; [exact (unknown_command_ignored "banana" forward_world Ha H) |].
  reflexivity.
Defined.

(** C8 as stated fails for a token that differs from a valid one by case
    only: [FORWARD] is not in the valid set, yet it drives the robot. *)
Lemma unknown_command_fails_for_upper_case :
  ("FORWARD" ∉ valid_tokens)
  ∧ ¬ ignored_with_warning "FORWARD" idle_world.
Proof.
  split.
  - apply (bool_decide_unpack _). vm_compute. exact I.
  - intros [w' (Hrun & _ & _ & _ & Hself)].
    apply (f_equal (λ r, is_moving (self (final r)))) in Hrun.
    cbn [final] in Hrun. rewrite Hself in Hrun.
    vm_compute in Hrun. discriminate Hrun.
Qed.

(** *** The liveness timestamp *)

Lemma move_refreshes_timestamp (move : option Q → M world unit)
  (l1 l2 l3 l4 : level) :
  (∀ speed w,
     PWM.valid_dutycycle (effective_speed speed (self w)) = true →
     move speed w = Ok tt (driven l1 l2 l3 l4 speed w)) →
  (∀ speed w,
     PWM.valid_dutycycle (effective_speed speed (self w)) = false →
     move speed w =
     Raise (ValueError_dutycycle (effective_speed speed (self w)))
       (refused l1 l2 l3 l4 w)) →
  ∀ speed w text,
    last_command_time
      (self (final ((move speed ;; SafeRobotCarNode.logger_info text) w)))
    = clock (proc w).
Proof.
  intros Hrun Hrefused speed w text.
  unfold mbind, M_bind.
  destruct (PWM.valid_dutycycle (effective_speed speed (self w))) eqn:Hv.
  - rewrite (Hrun speed w Hv). reflexivity.
  - rewrite (Hrefused speed w Hv). reflexivity.
Qed.

Lemma execute_forward_refreshes (w : world) :
  last_command_time
    (self (final (SafeRobotCarNode.execute_command "forward" w)))
  = clock (proc w).
Proof.
  apply (move_refreshes_timestamp _ _ _ _ _
           move_forward_run move_forward_refused None w).
Qed.

Lemma execute_backward_refreshes (w : world) :
  last_command_time
    (self (final (SafeRobotCarNode.execute_command "backward" w)))
  = clock (proc w).
Proof.
  apply (move_refreshes_timestamp _ _ _ _ _
           move_backward_run move_backward_refused None w).
Qed.

Lemma execute_left_refreshes (w : world) :
  last_command_time
    (self (final (SafeRobotCarNode.execute_command "left" w)))
  = clock (proc w).
Proof.
  apply (move_refreshes_timestamp _ _ _ _ _
           turn_left_run turn_left_refused None w).
Qed.

Lemma execute_right_refreshes (w : world) :
  last_command_time
    (self (final (SafeRobotCarNode.execute_command "right" w)))
  = clock (proc w).
Proof.
  apply (move_refreshes_timestamp _ _ _ _ _
           turn_right_run turn_right_refused None w).
Qed.

Lemma execute_stop_refreshes (w : world) :
  last_command_time
    (self (final (SafeRobotCarNode.execute_command "stop" w)))
  = clock (proc w).
Proof. reflexivity. Qed.

Lemma execute_emergency_stop_keeps_timestamp (w : world) :
  last_command_time
    (self (final (SafeRobotCarNode.execute_command "emergency_stop" w)))
  = last_command_time (self w).
Proof. reflexivity. Qed.

Lemma execute_speed_keeps_timestamp (w : world) :
  last_command_time
    (self (final (SafeRobotCarNode.execute_command "speed" w)))
  = last_command_time (self w).
Proof. reflexivity. Qed.

(** *** C6: which commands refresh the timestamp *)

(** C6 (amended). Through the dispatcher, each of [forward], [backward],
    [left], [right] and [stop] stores the current time in
    [last_command_time], and so does [set_speed], which serves [speed]
    on the HTTP path.  [emergency_stop] leaves [last_command_time] as it
    was, on the dispatcher and on the HTTP path alike, and so does a bare
    [speed] token given to the dispatcher. *)
Theorem accepted_commands_refresh_timestamp (w : world) :
  Forall
    (λ token,
       last_command_time
         (self (final (SafeRobotCarNode.execute_command token w)))
       = clock (proc w))
    ["forward"; "backward"; "left"; "right"; "stop"]
  ∧ (∀ speed : Z,
       last_command_time (self (final (set_speed speed w)))
       = clock (proc w))
  ∧ last_command_time
      (self (final (SafeRobotCarNode.execute_command "emergency_stop" w)))
    = last_command_time (self w)
  ∧ last_command_time
      (self (final (WebHandler.handle_emergency_stop true w)))
    = last_command_time (self w)
  ∧ last_command_time
      (self (final (SafeRobotCarNode.execute_command "speed" w)))
    = last_command_time (self w).
Proof.
  split.
  - constructor; [apply execute_forward_refreshes |].
    constructor; [apply execute_backward_refreshes |].
    constructor; [apply execute_left_refreshes |].
    constructor; [apply execute_right_refreshes |].
    constructor; [apply execute_stop_refreshes |].
    constructor.
  - split; [intros speed; reflexivity |].
    split; [apply execute_emergency_stop_keeps_timestamp |].
    split; [reflexivity |].
    apply execute_speed_keeps_timestamp.
Qed.

(** C6 as stated fails for [emergency_stop]: five seconds after the last
    command, the timestamp is still that of the last command. *)
Lemma emergency_stop_does_not_refresh_timestamp :
  ¬ (last_command_time
       (self (final (SafeRobotCarNode.execute_command "emergency_stop"
                       idle_world_later)))
     == clock (proc idle_world_later))%Q.
Proof.
  rewrite execute_emergency_stop_keeps_timestamp.
  vm_compute. discriminate.
Qed.

(** *** The HTTP control path *)

Ltac run_handler :=
  unfold WebHandler.handle_control_command, WebHandler.first,
    WebHandler.int_of.

Lemma handle_speed_without_value (int : string → option Z)
  (robot_node : bool) (params : gmap string (list string))
  (rest : list string) (w : world) :
  params !! "cmd" = Some ("speed" :: rest) →
  params !! "value" = None →
  WebHandler.handle_control_command int robot_node params w =
  Ok (Response 200 "Command 'speed' executed")
    (if robot_node
     then {| proc := emit (LogWarn "❓ Unknown command: speed") (proc w);
             self := self w |}
     else w).
Proof.
  intros Hcmd Hvalue. run_handler. rewrite Hcmd, Hvalue.
  destruct robot_node; reflexivity.
Qed.

Lemma handle_speed_malformed (int : string → option Z)
  (robot_node : bool) (params : gmap string (list string))
  (rest more : list string) (text : string) (w : world) :
  params !! "cmd" = Some ("speed" :: rest) →
  params !! "value" = Some (text :: more) →
  int text = None →
  WebHandler.handle_control_command int robot_node params w =
  Raise (ValueError_int text) w.
Proof.
  intros Hcmd Hvalue Hint. run_handler. rewrite Hcmd, Hvalue.
  cbv beta iota delta [mbind M_bind mret M_ret String.eqb Ascii.eqb
                       Bool.eqb andb].
  rewrite Hint. reflexivity.
Qed.

Lemma handle_speed_well_formed (int : string → option Z)
  (robot_node : bool) (params : gmap string (list string))
  (rest more : list string) (text : string) (n : Z) (w : world) :
  params !! "cmd" = Some ("speed" :: rest) →
  params !! "value" = Some (text :: more) →
  int text = Some n →
  WebHandler.handle_control_command int robot_node params w =
  Ok (Response 200 ("Speed set to " ++ pretty n ++ "%"))
    (if robot_node
     then {| proc := proc w;
             self :=
               with_current_speed (Z.max 0 (Z.min 100 n))
                 (with_last_command_time (clock (proc w)) (self w)) |}
     else w).
Proof.
  intros Hcmd Hvalue Hint. run_handler. rewrite Hcmd, Hvalue.
  cbv beta iota delta [mbind M_bind mret M_ret String.eqb Ascii.eqb
                       Bool.eqb andb].
  rewrite Hint. destruct robot_node; reflexivity.
Qed.

(** *** C7: the argument of speed *)

(** C7 (amended). For a request whose command is [speed]: without a value,
    the request goes to the dispatcher, which only logs an unknown-command
    warning, and the caller receives a 200 reply, not a rejection; with a
    value that [int] cannot read, ValueError is raised before any call on
    the controller and the world is untouched; with a value that [int]
    reads as [n], [n] is passed as it is to [set_speed], which clamps it.
    In all three cases the pins, the duty cycles and [is_moving] stay as
    they were. *)
Theorem speed_argument_handling (int : string → option Z)
  (robot_node : bool) (params : gmap string (list string))
  (rest : list string) (w : world)
  (Hcmd : params !! "cmd" = Some ("speed" :: rest)) :
  (params !! "value" = None →
   ∃ w', WebHandler.handle_control_command int robot_node params w
         = Ok (Response 200 "Command 'speed' executed") w'
     ∧ ¬ rejected (WebHandler.handle_control_command int robot_node params w)
     ∧ console (proc w')
       = (if robot_node
          then (console (proc w)
                ++ [LogWarn "❓ Unknown command: speed"])%list
          else console (proc w))
     ∧ gpio (proc w') = gpio (proc w)
     ∧ self w' = self w)
  ∧ (∀ text more,
       params !! "value" = Some (text :: more) → int text = None →
       WebHandler.handle_control_command int robot_node params w
       = Raise (ValueError_int text) w)
  ∧ (∀ text more n,
       params !! "value" = Some (text :: more) → int text = Some n →
       ∃ w', WebHandler.handle_control_command int robot_node params w
             = Ok (Response 200 ("Speed set to " ++ pretty n ++ "%")) w'
         ∧ proc w' = proc w
         ∧ enable_duty (self w') = enable_duty (self w)
         ∧ is_moving (self w') = is_moving (self w)
         ∧ current_speed (self w')
           = (if robot_node then clamp n 0 100 else current_speed (self w))).
Proof.
  split; [| split].
  - intros Hvalue.
    rewrite (handle_speed_without_value _ _ _ _ _ Hcmd Hvalue).
    eexists. split; [reflexivity |].
    split; [intros H; apply H; reflexivity |].
    destruct robot_node; repeat split.
  - intros text more Hvalue Hint.
    apply (handle_speed_malformed _ _ _ _ _ _ _ Hcmd Hvalue Hint).
  - intros text more n Hvalue Hint.
    rewrite (handle_speed_well_formed _ _ _ _ _ _ _ _ Hcmd Hvalue Hint).
    eexists. split; [reflexivity |].
    destruct robot_node; cbn [proc self current_speed with_current_speed];
      rewrite ?clamp_max_min; repeat split.
Qed.

Lemma speed_argument_handling_witness :
  speed_with_text !! "cmd" = Some ["speed"]
  ∧ WebHandler.handle_control_command int_decimal true speed_with_text
      forward_world
    = Raise (ValueError_int "fast") forward_world.
Proof.
  assert (Hcmd : speed_with_text !! "cmd" = Some ["speed"])
    by (vm_compute; reflexivity).
  split; [exact Hcmd |].
  destruct (speed_argument_handling int_decimal true speed_with_text []
              forward_world Hcmd) as (_ & Hmalformed & _).
  apply (Hmalformed "fast" []); vm_compute; reflexivity.
Defined.

(** C7 as stated fails when the value is absent: the caller gets the 200
    reply of an executed command. *)
Lemma speed_without_value_not_rejected :
  speed_without_value !! "cmd" = Some ["speed"]
  ∧ speed_without_value !! "value" = None
  ∧ ¬ rejected
        (WebHandler.handle_control_command int_decimal true
           speed_without_value idle_world).
Proof.
  split; [vm_compute; reflexivity |].
  split; [vm_compute; reflexivity |].
  rewrite (handle_speed_without_value int_decimal true speed_without_value
             [] idle_world) by (vm_compute; reflexivity).
  intros H. apply H. reflexivity.
Qed.

(** ** Further properties *)

(** *** Calls that run one after the other *)


Ltac open_world w :=
  destruct w as [[g clk con] [f [ac af ad ar] [bc bf bd br] cs lt mv wa]].

Lemma init_run (p : process) :
  __init__ p =
  Ok {| pwm_freq := 1000;
        pwm_a := PWM.Make 18 1000 0 true;
        pwm_b := PWM.Make 12 1000 0 true;
        current_speed := 70;
        last_command_time := clock p;
        is_moving := false;
        watchdog_active := true |}
     (constructor_writes p).
Proof. destruct p as [g clk con]. reflexivity. Qed.



















(** *** What the HTTP handlers can do to the world *)

Lemma handle_control_command_effect (int : string → option Z)
  (robot_node : bool) (params : gmap string (list string)) (w : world) :
  final (WebHandler.handle_control_command int robot_node params w) = w
  ∨ (robot_node = true
     ∧ ∃ n, final (WebHandler.handle_control_command int robot_node params w)
            = final (set_speed n w))
  ∨ (robot_node = true
     ∧ ∃ command,
         final (WebHandler.handle_control_command int robot_node params w)
         = final (SafeRobotCarNode.execute_command command w)).
Proof.
  run_handler.
  destruct (params !! "cmd") as [[| command cmd] |];
    [left; reflexivity | | left; reflexivity].
  cbv beta iota delta [mbind M_bind mret M_ret].
  destruct (String.eqb command "speed");
    [destruct (params !! "value") as [[| text value] |] |].
  - left. reflexivity.
  - destruct (int text) as [n |]; [| left; reflexivity].
    destruct robot_node; [| left; reflexivity].
    right. left. split; [reflexivity |]. exists n. reflexivity.
  - destruct robot_node; [| left; reflexivity].
    right. right. split; [reflexivity |]. exists command.
    unfold when.
    destruct (SafeRobotCarNode.execute_command command w) as [[] w' | x w'];
      reflexivity.
  - destruct robot_node; [| left; reflexivity].
    right. right. split; [reflexivity |]. exists command.
    unfold when.
    destruct (SafeRobotCarNode.execute_command command w) as [[] w' | x w'];
      reflexivity.
Qed.


Lemma handle_emergency_stop_effect (robot_node : bool) (w : world) :
  final (WebHandler.handle_emergency_stop robot_node w)
  = if robot_node then final (_emergency_stop_motors w) else w.
Proof. destruct robot_node; reflexivity. Qed.

Lemma do_GET_effect (int : string → option Z) (robot_node : bool)
  (robot_ip html_content : string)
  (json_dumps : list (string * json) → string)
  (parse_query : string → gmap string (list string))
  (path : string) (w : world) :
  let r := WebHandler.do_GET int robot_node robot_ip html_content json_dumps
             parse_query path w in
  final r = w
  ∨ (String.prefix "/control" path = true
     ∧ final r
       = final (WebHandler.handle_control_command int robot_node
                  (parse_query path) w))
  ∨ (path = "/emergency_stop" ∧ robot_node = true
     ∧ final r = final (_emergency_stop_motors w)).
Proof.
  cbv zeta. unfold WebHandler.do_GET. destruct w as [p c].
  destruct (String.eqb path "/"); [left; reflexivity |].
  destruct (String.eqb path "/status"); [left; reflexivity |].
  destruct (String.prefix "/control" path) eqn:Hcontrol.
  - right. left. split; reflexivity.
  - destruct (String.eqb_spec path "/emergency_stop") as [-> | _].
    + destruct robot_node; [| left; reflexivity].
      right. right. repeat split; reflexivity.
    + left. reflexivity.
Qed.


Lemma publish_status_effect (json_dumps : list (string * json) → string)
  (robot_ip : string) (w : world) :
  final (SafeRobotCarNode.publish_status json_dumps robot_ip w) = w.
Proof. destruct w as [p c]. reflexivity. Qed.




Lemma reachable_forward_world : reachable forward_world.
Proof.
  apply (reachable_step idle_world).
  - apply (reachable_constructed boot idle_controller (proc idle_world)).
    exact idle_world_constructed.
  - apply step_move_forward.
Qed.

(** *** Threads that interleave between statements *)

(** How coverage by statements composes along the constructs of the
    embedding. *)
Lemma covered_ret {A} (a : A) : covered (mret a).
Proof. intros w. apply rtc_refl. Qed.

Lemma covered_raise {A} (e : exn) : covered (raise e : M world A).
Proof. intros w. apply rtc_refl. Qed.

Lemma covered_gets {A} (f : world → A) : covered (gets f).
Proof. intros w. apply rtc_refl. Qed.

Lemma covered_getattr {A} (f : t → A) : covered (getattr f).
Proof. intros w. apply rtc_refl. Qed.

Lemma covered_bind {A B} (m : M world A) (k : A → M world B) :
  covered m → (∀ a, covered (k a)) → covered (m ≫= k).
Proof.
  intros Hm Hk w. specialize (Hm w). unfold mbind, M_bind.
  destruct (m w) as [a w' | e w']; cbn [final] in *; [| exact Hm].
  etrans; [exact Hm | apply Hk].
Qed.

Lemma covered_try_except {A} (body : M world A) (handler : exn → M world A) :
  covered body → (∀ e, covered (handler e)) → covered (try_except body handler).
Proof.
  intros Hb Hh w. specialize (Hb w). unfold try_except.
  destruct (body w) as [a w' | e w']; cbn [final] in *; [exact Hb |].
  etrans; [exact Hb | apply Hh].
Qed.

Lemma covered_when (c : bool) (body : M world unit) :
  covered body → covered (when c body).
Proof. intros Hb. destruct c; [exact Hb | apply covered_ret]. Qed.

Lemma covered_if {A} (c : bool) (m1 m2 : M world A) :
  covered m1 → covered m2 → covered (if c then m1 else m2).
Proof. intros H1 H2. destruct c; assumption. Qed.

Lemma covered_for_each {A} (l : list A) (body : A → M world unit) :
  (∀ x, covered (body x)) → covered (for_each l body).
Proof.
  intros Hb. induction l as [| x l IH]; [apply covered_ret |].
  cbn [for_each]. apply covered_bind; [apply Hb | intros _; exact IH].
Qed.

Lemma covered_getitem {V} (d : list (string * V)) (key : string) :
  covered (getitem d key).
Proof.
  unfold getitem. destruct (dict_get d key);
    [apply covered_ret | apply covered_raise].
Qed.

(** Reads of the process change nothing. *)
Lemma covered_time : covered (io time_time).
Proof. intros [p c]. apply rtc_refl. Qed.

(** The statements themselves. *)
Lemma covered_timestamp (now : Q) :
  covered (setattr (with_last_command_time now)).
Proof. intros w. apply rtc_once, statement_timestamp. Qed.

Lemma covered_output (channel : Z) (value : level) :
  channel ∈ program_pins → covered (io (GPIO.output channel value)).
Proof. intros Hin w. apply rtc_once, statement_output, Hin. Qed.

Lemma covered_duty_a (dc : Q) : covered (pwm_a_ChangeDutyCycle dc).
Proof. intros w. apply rtc_once, statement_duty_a. Qed.

Lemma covered_duty_b (dc : Q) : covered (pwm_b_ChangeDutyCycle dc).
Proof. intros w. apply rtc_once, statement_duty_b. Qed.

Lemma covered_is_moving (value : bool) :
  covered (setattr (with_is_moving value)).
Proof. intros w. apply rtc_once, statement_is_moving. Qed.

Lemma covered_current_speed (speed : Z) :
  covered (setattr (with_current_speed (Z.max 0 (Z.min 100 speed)))).
Proof. intros w. apply rtc_once, statement_current_speed. Qed.

Lemma covered_log (e : event) : covered (io (log e)).
Proof. intros w. apply rtc_once, statement_log. Qed.

Lemma covered_print (text : string) : covered (io (print text)).
Proof. apply (covered_log (Print text)). Qed.

Lemma covered_sleep (seconds : Q) :
  (0 <= seconds)%Q → covered (io (time_sleep seconds)).
Proof. intros H w. apply rtc_once, (statement_pass w seconds H). Qed.

Lemma covered_disarm : covered (setattr (with_watchdog_active false)).
Proof. intros w. apply rtc_once, statement_disarm. Qed.

Lemma covered_pwm_a_stop :
  covered (setattr (λ c, with_pwm_a (PWM.stop (pwm_a c)) c)).
Proof. intros w. apply rtc_once, statement_pwm_a_stop. Qed.

Lemma covered_pwm_b_stop :
  covered (setattr (λ c, with_pwm_b (PWM.stop (pwm_b c)) c)).
Proof. intros w. apply rtc_once, statement_pwm_b_stop. Qed.

Lemma covered_gpio_cleanup : covered (io GPIO.cleanup).
Proof. intros w. apply rtc_once, statement_gpio_cleanup. Qed.

Lemma covered_setmode : covered (io (GPIO.setmode BCM)).
Proof. intros w. apply rtc_once, statement_setmode. Qed.

Lemma covered_setwarnings : covered (io (GPIO.setwarnings false)).
Proof. intros w. apply rtc_once, statement_setwarnings. Qed.

Lemma covered_setup (channel : Z) :
  channel ∈ program_pins → covered (io (GPIO.setup_out channel)).
Proof. intros Hin w. apply rtc_once, statement_setup, Hin. Qed.

(** Computations in the process, run from a method. *)
Lemma covered_io_ret {A} (a : A) : covered (io (mret a)).
Proof. intros [p c]. apply rtc_refl. Qed.

Lemma covered_io_bind {A B} (m : M process A) (k : A → M process B) :
  covered (io m) → (∀ a, covered (io (k a))) → covered (io (m ≫= k)).
Proof.
  intros Hm Hk [p c]. specialize (Hm {| proc := p; self := c |}).
  unfold io, zoom, mbind, M_bind in *. cbn [proc self] in *.
  destruct (m p) as [a p' | e p']; cbn [final] in *; [| exact Hm].
  etrans; [exact Hm |].
  specialize (Hk a {| proc := p'; self := c |}). cbn [proc self] in Hk.
  destruct (k a p'); exact Hk.
Qed.

Lemma covered_io_try_except {A} (body : M process A)
  (handler : exn → M process A) :
  covered (io body) → (∀ e, covered (io (handler e))) →
  covered (io (try_except body handler)).
Proof.
  intros Hb Hh [p c]. specialize (Hb {| proc := p; self := c |}).
  unfold io, zoom, try_except in *. cbn [proc self] in *.
  destruct (body p) as [a p' | e p']; cbn [final] in *; [exact Hb |].
  etrans; [exact Hb |].
  specialize (Hh e {| proc := p'; self := c |}). cbn [proc self] in Hh.
  destruct (handler e p'); exact Hh.
Qed.

Lemma covered_io_when (c : bool) (body : M process unit) :
  covered (io body) → covered (io (when c body)).
Proof. intros Hb. destruct c; [exact Hb | apply covered_io_ret]. Qed.

Lemma covered_io_for_each {A} (l : list A) (body : A → M process unit) :
  Forall (λ x, covered (io (body x))) l → covered (io (for_each l body)).
Proof.
  induction 1 as [| x l Hx _ IH]; [apply covered_io_ret |].
  cbn [for_each]. apply covered_io_bind; [exact Hx | intros _; exact IH].
Qed.

Lemma covered_ret_bind {A B} (a : A) (k : A → M world B) :
  covered (k a) → covered (mret a ≫= k).
Proof. intros Hk w. exact (Hk w). Qed.

Ltac pin_listed :=
  unfold program_pins, WATCHDOG_PIN; cbn [map snd MOTOR_PINS];
  repeat first [apply list_elem_of_here | apply list_elem_of_further].

Lemma motor_pin_listed (pin_name : string) (pin : Z) :
  dict_get MOTOR_PINS pin_name = Some pin → pin ∈ program_pins.
Proof.
  unfold MOTOR_PINS. cbn [dict_get].
  repeat (destruct (String.eqb _ pin_name);
          [intros [= <-]; pin_listed |]).
  discriminate.
Qed.

Lemma covered_output_motor_pin (pin_name : string) (value : level) :
  covered (output_motor_pin pin_name value).
Proof.
  unfold output_motor_pin, getitem.
  destruct (dict_get MOTOR_PINS pin_name) as [pin |] eqn:Hpin.
  - apply covered_ret_bind, covered_output, (motor_pin_listed _ _ Hpin).
  - intros w. apply rtc_refl.
Qed.

Create HintDb covered discriminated.

#[local] Hint Resolve covered_ret covered_raise covered_gets covered_getattr
  covered_bind covered_try_except covered_when covered_if covered_for_each
  covered_getitem covered_time covered_timestamp covered_output
  covered_duty_a covered_duty_b covered_is_moving covered_current_speed
  covered_log covered_print covered_sleep covered_disarm covered_pwm_a_stop
  covered_pwm_b_stop covered_gpio_cleanup covered_setmode
  covered_setwarnings covered_setup covered_io_ret covered_io_bind
  covered_io_try_except covered_io_when covered_output_motor_pin : covered.

#[local] Hint Extern 1 (_ ∈ program_pins) => pin_listed : covered.

#[local] Hint Extern 1 (Qle 0 _) =>
  (unfold HEARTBEAT_INTERVAL; discriminate) : covered.

Ltac cover := eauto 100 with covered.

(** Every method, callback and handler consists of statements. *)
Lemma covered_update_command_time : covered _update_command_time.
Proof. unfold _update_command_time. cover. Qed.

Lemma covered_emergency_stop_motors : covered _emergency_stop_motors.
Proof. unfold _emergency_stop_motors. cover. Qed.

#[local] Hint Resolve covered_update_command_time
  covered_emergency_stop_motors : covered.

Lemma covered_watchdog_iteration : covered _watchdog_iteration.
Proof. unfold _watchdog_iteration. cover. Qed.

Lemma covered_heartbeat_iteration (heartbeat_state : bool) :
  covered (_heartbeat_iteration heartbeat_state).
Proof. unfold _heartbeat_iteration. cover. Qed.

Lemma covered_speed_or_current (speed : option Q) :
  covered (speed_or_current speed).
Proof. destruct speed; cbn [speed_or_current]; cover. Qed.

#[local] Hint Resolve covered_speed_or_current : covered.

Lemma covered_move_forward (speed : option Q) : covered (move_forward speed).
Proof. unfold move_forward. cover. Qed.

Lemma covered_move_backward (speed : option Q) :
  covered (move_backward speed).
Proof. unfold move_backward. cover. Qed.

Lemma covered_turn_left (speed : option Q) : covered (turn_left speed).
Proof. unfold turn_left. cover. Qed.

Lemma covered_turn_right (speed : option Q) : covered (turn_right speed).
Proof. unfold turn_right. cover. Qed.

Lemma covered_stop : covered stop.
Proof. unfold stop. cover. Qed.

Lemma covered_set_speed (speed : Z) : covered (set_speed speed).
Proof. unfold set_speed. cover. Qed.

Lemma covered_cleanup : covered cleanup.
Proof. unfold cleanup. cover. Qed.

#[local] Hint Resolve covered_move_forward covered_move_backward
  covered_turn_left covered_turn_right covered_stop covered_set_speed
  : covered.

Lemma covered_cmd_vel_callback (msg : geometry_msgs.Twist) :
  covered (SafeRobotCarNode.cmd_vel_callback msg).
Proof. unfold SafeRobotCarNode.cmd_vel_callback. cbv zeta. cover. Qed.

Lemma covered_execute_command (command : string) :
  covered (SafeRobotCarNode.execute_command command).
Proof.
  unfold SafeRobotCarNode.execute_command, SafeRobotCarNode.logger_info,
    SafeRobotCarNode.logger_warn.
  cbv zeta. cover.
Qed.

Lemma covered_shutdown_hook : covered (io emergency_stop).
Proof.
  unfold emergency_stop.
  apply covered_io_try_except; [| intros e; apply covered_print].
  apply covered_io_bind; [apply covered_setmode | intros _].
  apply covered_io_bind; [apply covered_setwarnings | intros _].
  apply covered_io_bind.
  - apply covered_io_for_each. unfold MOTOR_PINS.
    repeat (apply List.Forall_cons; [cbn [snd]; cover |]).
    apply List.Forall_nil.
  - intros _. cover.
Qed.

Lemma covered_main_finally : covered main_finally.
Proof.
  unfold main_finally.
  apply covered_bind;
    [| intros _; apply covered_bind;
       [apply covered_shutdown_hook | intros _; apply covered_print]].
  unfold SafeRobotCarNode.destroy_node, SafeRobotCarNode.logger_info.
  apply covered_bind; [apply covered_log | intros _; apply covered_cleanup].
Qed.

(** So a call that runs on its own is one of the interleavings. *)
Lemma step_statements (w w' : world) : step w w' → rtc statement w w'.
Proof.
  intros Hstep. destruct Hstep.
  - apply covered_move_forward.
  - apply covered_move_backward.
  - apply covered_turn_left.
  - apply covered_turn_right.
  - apply covered_stop.
  - apply covered_set_speed.
  - apply covered_emergency_stop_motors.
  - apply covered_watchdog_iteration.
  - apply covered_heartbeat_iteration.
  - apply covered_cleanup.
  - apply covered_cmd_vel_callback.
  - apply covered_execute_command.
  - unfold SafeRobotCarNode.command_callback. cbv zeta.
    apply covered_execute_command.
  - rewrite publish_status_effect. apply rtc_refl.
  - destruct (do_GET_effect int robot_node robot_ip html_content json_dumps
                parse_query path w) as [-> | [[_ ->] | (_ & _ & ->)]].
    + apply rtc_refl.
    + destruct (handle_control_command_effect int robot_node
                  (parse_query path) w)
        as [-> | [[_ [n ->]] | [_ [command ->]]]].
      * apply rtc_refl.
      * apply covered_set_speed.
      * apply covered_execute_command.
    + apply covered_emergency_stop_motors.
  - apply covered_shutdown_hook.
  - apply rtc_once, statement_pass. assumption.
Qed.

Lemma interleaved_statements (w w' : world) :
  interleaved w → rtc statement w w' → interleaved w'.
Proof.
  intros Hw Hrun. induction Hrun as [| w w1 w2 Hstmt _ IH]; [exact Hw |].
  apply IH, (interleaved_statement w w1 Hw Hstmt).
Qed.

Lemma reachable_interleaved (w : world) : reachable w → interleaved w.
Proof.
  induction 1 as [p c p' Hinit | w w' _ IH Hstep].
  - apply (interleaved_constructed p c p' Hinit).
  - apply (interleaved_statements w w' IH), step_statements, Hstep.
Qed.

(** What no statement breaks. *)
Lemma accepted_settings_self (w w' : world) :
  current_speed (self w') = current_speed (self w) →
  PWM.dutycycle (pwm_a (self w')) = PWM.dutycycle (pwm_a (self w)) →
  PWM.dutycycle (pwm_b (self w')) = PWM.dutycycle (pwm_b (self w)) →
  accepted_settings w → accepted_settings w'.
Proof.
  intros Hs Ha Hb [H1 H2 H3]. constructor; rewrite ?Hs, ?Ha, ?Hb; assumption.
Qed.

Lemma accepted_settings_duty_a (dc : Q) (w : world) :
  accepted_settings w →
  accepted_settings (final (pwm_a_ChangeDutyCycle dc w)).
Proof.
  intros [H1 H2 H3]. open_world w.
  unfold pwm_a_ChangeDutyCycle, getattr, gets, mbind, M_bind, call_on,
    PWM.ChangeDutyCycle.
  cbn [self pwm_a]. destruct (PWM.valid_dutycycle dc) eqn:Hv.
  - constructor; [exact H1 | exact Hv | exact H3].
  - constructor; assumption.
Qed.

Lemma accepted_settings_duty_b (dc : Q) (w : world) :
  accepted_settings w →
  accepted_settings (final (pwm_b_ChangeDutyCycle dc w)).
Proof.
  intros [H1 H2 H3]. open_world w.
  unfold pwm_b_ChangeDutyCycle, getattr, gets, mbind, M_bind, call_on,
    PWM.ChangeDutyCycle.
  cbn [self pwm_b]. destruct (PWM.valid_dutycycle dc) eqn:Hv.
  - constructor; [exact H1 | exact H2 | exact Hv].
  - constructor; assumption.
Qed.

Lemma statement_keeps_settings (w w' : world) :
  statement w w' → accepted_settings w → accepted_settings w'.
Proof.
  intros Hstmt Hsafe. destruct Hstmt;
    try (apply (accepted_settings_self w); [reflexivity .. | exact Hsafe]).
  - apply accepted_settings_duty_a, Hsafe.
  - apply accepted_settings_duty_b, Hsafe.
  - destruct Hsafe as [H1 H2 H3]. constructor; [| exact H2 | exact H3].
    cbn. lia.
Qed.

Lemma accepted_settings_constructed (p p' : process) (c : t) :
  __init__ p = Ok c p' → accepted_settings {| proc := p'; self := c |}.
Proof.
  rewrite init_run. intros H. injection H as <- <-.
  constructor; cbn [self current_speed pwm_a pwm_b PWM.dutycycle];
    [lia | reflexivity | reflexivity].
Qed.

Lemma interleaved_invariant (w : world) :
  interleaved w → accepted_settings w.
Proof.
  induction 1 as [p c p' Hinit | w w' _ IH Hstmt].
  - apply (accepted_settings_constructed p p' c Hinit).
  - apply (statement_keeps_settings w w' Hstmt IH).
Qed.

(** X2. The threads of the program share the controller without a lock.
    However their statements interleave, from construction on,
    [current_speed] is a percentage and each PWM object carries a duty
    cycle that the driver accepts; so a movement method called with no
    argument never hands the driver a value that it refuses.  A call, a
    callback, a request or a loop iteration that runs without
    interruption is one of these interleavings. *)
Theorem interleaved_settings_accepted (w : world)
  (Hinterleaved : interleaved w) :
  (0 ≤ current_speed (self w) ≤ 100)%Z
  ∧ PWM.valid_dutycycle (PWM.dutycycle (pwm_a (self w))) = true
  ∧ PWM.valid_dutycycle (PWM.dutycycle (pwm_b (self w))) = true
  ∧ PWM.valid_dutycycle (effective_speed None (self w)) = true
  ∧ (∀ w', step w w' → rtc statement w w' ∧ interleaved w').
Proof.
  destruct (interleaved_invariant w Hinterleaved) as [H1 H2 H3].
  split; [exact H1 |]. split; [exact H2 |]. split; [exact H3 |].
  split; [apply current_speed_accepted, H1 |].
  intros w' Hstep. pose proof (step_statements w w' Hstep) as Hrun.
  split; [exact Hrun | exact (interleaved_statements w w' Hinterleaved Hrun)].
Qed.

Lemma interleaved_forward_world : interleaved forward_world.
Proof. apply reachable_interleaved, reachable_forward_world. Qed.

Lemma interleaved_settings_accepted_witness :
  interleaved forward_world
  ∧ enable_duty (self forward_world) = (70%Q, 70%Q)
  ∧ PWM.valid_dutycycle (effective_speed None (self forward_world)) = true.
Proof.
  split; [exact interleaved_forward_world |]. split; [reflexivity |].
  exact (proj1 (proj2 (proj2 (proj2
           (interleaved_settings_accepted forward_world
              interleaved_forward_world))))).
Defined.

(** *** The dispatcher *)

Lemma then_log_run (m : M world unit) (e : event) (w w' : world) :
  m w = Ok tt w' →
  (m ;; io (log e)) w = Ok tt {| proc := emit e (proc w'); self := self w' |}.
Proof. intros H. unfold mbind, M_bind. rewrite H. reflexivity. Qed.

Lemma gpio_ready_write (channel : Z) (value : level) (p : process) :
  gpio_ready p → gpio_ready (GPIO.write channel value p).
Proof. intros H. exact H. Qed.

Lemma gpio_ready_emit (e : event) (p : process) :
  gpio_ready p → gpio_ready (emit e p).
Proof. intros H. exact H. Qed.

Lemma gpio_ready_elapse (seconds : Q) (p : process) :
  gpio_ready p → gpio_ready (elapse seconds p).
Proof. intros H. exact H. Qed.

Ltac still_live H :=
  destruct H as (Hgpio & Hpwm_a & Hpwm_b);
  split;
  [cbn [proc driven];
   repeat (apply gpio_ready_emit || apply gpio_ready_write
           || apply gpio_ready_elapse);
   exact Hgpio
  | split; [exact Hpwm_a | exact Hpwm_b]].

Lemma execute_command_returns (command : string) (w : world) :
  (0 ≤ current_speed (self w) ≤ 100)%Z →
  live w →
  ∃ w', SafeRobotCarNode.execute_command command w = Ok tt w'
    ∧ live w'
    ∧ (lower command ∈ movement_tokens →
       enable_duty (self w')
       = (inject_Z (current_speed (self w)),
          inject_Z (current_speed (self w)))
       ∧ is_moving (self w') = true).
Proof.
  intros Hcs Hlive.
  apply current_speed_accepted in Hcs.
  unfold SafeRobotCarNode.execute_command. cbv zeta.
  unfold SafeRobotCarNode.logger_info, SafeRobotCarNode.logger_warn.
  destruct (String.eqb_spec (lower command) "forward") as [_ | Hf].
  { eexists. split; [apply then_log_run, move_forward_run, Hcs |].
    split; [still_live Hlive |]. intros _. split; reflexivity. }
  destruct (String.eqb_spec (lower command) "backward") as [_ | Hb].
  { eexists. split; [apply then_log_run, move_backward_run, Hcs |].
    split; [still_live Hlive |]. intros _. split; reflexivity. }
  destruct (String.eqb_spec (lower command) "left") as [_ | Hl].
  { eexists. split; [apply then_log_run, turn_left_run, Hcs |].
    split; [still_live Hlive |]. intros _. split; reflexivity. }
  destruct (String.eqb_spec (lower command) "right") as [_ | Hr].
  { eexists. split; [apply then_log_run, turn_right_run, Hcs |].
    split; [still_live Hlive |]. intros _. split; reflexivity. }
  assert (Hnot : lower command ∉ movement_tokens).
  { unfold movement_tokens. rewrite !not_elem_of_cons.
    repeat split; try assumption. apply not_elem_of_nil. }
  destruct (String.eqb (lower command) "stop").
  { eexists. split; [apply then_log_run, stop_run |].
    split; [still_live Hlive |]. intros H. contradiction. }
  destruct (String.eqb (lower command) "emergency_stop").
  { eexists. split; [apply then_log_run, emergency_stop_motors_run |].
    split; [still_live Hlive |]. intros H. contradiction. }
  eexists. split; [reflexivity |].
  split; [still_live Hlive |]. intros H. contradiction.
Qed.

Lemma live_forward_world : live forward_world.
Proof.
  split; [| split; reflexivity].
  split; [reflexivity |].
  apply (bool_decide_unpack _). vm_compute. exact I.
Qed.

(** X3. In a live controller, whatever its threads have done so far, the
    dispatcher run on its own returns normally for every token and
    leaves the controller live; a movement token puts both enable
    channels at [current_speed] and sets [is_moving]. *)
Theorem dispatcher_never_raises (command : string) (w : world)
  (Hinterleaved : interleaved w)
  (Hlive : live w) :
  ∃ w', SafeRobotCarNode.execute_command command w = Ok tt w'
    ∧ live w'
    ∧ (lower command ∈ movement_tokens →
       enable_duty (self w')
       = (inject_Z (current_speed (self w)),
          inject_Z (current_speed (self w)))
       ∧ is_moving (self w') = true).
Proof.
  apply execute_command_returns; [| exact Hlive].
  apply (setting_is_percentage w (interleaved_invariant w Hinterleaved)).
Qed.

Lemma dispatcher_never_raises_witness :
  interleaved forward_world
  ∧ live forward_world
  ∧ raised (SafeRobotCarNode.execute_command "Backward" forward_world)
    = None.
Proof.
  split; [exact interleaved_forward_world |].
  split; [exact live_forward_world |].
  destruct (dispatcher_never_raises "Backward" forward_world
              interleaved_forward_world live_forward_world)
    as [w' [Hrun _]].
  rewrite Hrun. reflexivity.
Defined.

(** *** How the speed setting and the movement methods compose *)

(** X4. After [set_speed p], a movement method called with no argument
    returns normally, whatever [p] was, and both enable channels carry
    [clamp p 0 100]. *)
Theorem set_speed_then_move (p : Z) (w : world) :
  Forall
    (λ move : option Q → M world unit,
       ∃ w', (set_speed p ;; move None) w = Ok tt w'
         ∧ enable_duty (self w')
           = (inject_Z (clamp p 0 100), inject_Z (clamp p 0 100))
         ∧ current_speed (self w') = clamp p 0 100
         ∧ is_moving (self w') = true)
    [move_forward; move_backward; turn_left; turn_right].
Proof.
  assert (Hv : PWM.valid_dutycycle
                 (effective_speed None (self (final (set_speed p w))))
               = true).
  { apply current_speed_accepted.
    rewrite set_speed_run. cbn [final self with_current_speed
                                current_speed].
    rewrite clamp_max_min. apply clamp_range. }
  assert (Hbind : ∀ move : option Q → M world unit,
            (set_speed p ;; move None) w
            = move None (final (set_speed p w))).
  { intros move. unfold mbind, M_bind. rewrite set_speed_run. reflexivity. }
  repeat (apply List.Forall_cons || apply List.Forall_nil);
    rewrite Hbind.
  - rewrite (move_forward_run None _ Hv). eexists. split; [reflexivity |].
    rewrite set_speed_run.
    cbn [final driven self proc effective_speed enable_duty
         with_is_moving with_pwm_a with_pwm_b with_current_speed
         with_last_command_time current_speed pwm_a pwm_b is_moving
         PWM.with_dutycycle PWM.dutycycle].
    rewrite clamp_max_min. repeat split.
  - rewrite (move_backward_run None _ Hv). eexists. split; [reflexivity |].
    rewrite set_speed_run.
    cbn [final driven self proc effective_speed enable_duty
         with_is_moving with_pwm_a with_pwm_b with_current_speed
         with_last_command_time current_speed pwm_a pwm_b is_moving
         PWM.with_dutycycle PWM.dutycycle].
    rewrite clamp_max_min. repeat split.
  - rewrite (turn_left_run None _ Hv). eexists. split; [reflexivity |].
    rewrite set_speed_run.
    cbn [final driven self proc effective_speed enable_duty
         with_is_moving with_pwm_a with_pwm_b with_current_speed
         with_last_command_time current_speed pwm_a pwm_b is_moving
         PWM.with_dutycycle PWM.dutycycle].
    rewrite clamp_max_min. repeat split.
  - rewrite (turn_right_run None _ Hv). eexists. split; [reflexivity |].
    rewrite set_speed_run.
    cbn [final driven self proc effective_speed enable_duty
         with_is_moving with_pwm_a with_pwm_b with_current_speed
         with_last_command_time current_speed pwm_a pwm_b is_moving
         PWM.with_dutycycle PWM.dutycycle].
    rewrite clamp_max_min. repeat split.
Qed.

(** *** A speed that the driver refuses *)

Lemma refused_direction_switched (move : option Q → M world unit)
  (l1 l2 l3 l4 : level) (speed : option Q) (w : world) :
  move speed w
  = Raise (ValueError_dutycycle (effective_speed speed (self w)))
      (refused l1 l2 l3 l4 w) →
  direction_switched_only move [Some l1; Some l2; Some l3; Some l4] speed w.
Proof.
  intros Hrun. exists (refused l1 l2 l3 l4 w).
  split; [exact Hrun |].
  split; [unfold refused; read_pins |].
  split; [unfold refused; cbn [proc]; unfold WATCHDOG_PIN;
          rewrite ?pin_level_write;
          repeat (case_decide; [try discriminate | try congruence]);
          reflexivity |].
  repeat split.
Qed.

(** X5. When the effective speed is outside 0..100, a movement method raises
    only after it has written the direction pins of its own direction and
    driven the hardware-watchdog pin HIGH; the duty cycles and [is_moving]
    stay as they were, so a robot that was moving keeps its duty cycle
    with the new direction. *)
Theorem refused_speed_switches_direction (speed : option Q) (w : world)
  (Hrefused : PWM.valid_dutycycle (effective_speed speed (self w)) = false) :
  direction_switched_only move_forward
    [Some HIGH; Some LOW; Some HIGH; Some LOW] speed w
  ∧ direction_switched_only move_backward
      [Some LOW; Some HIGH; Some LOW; Some HIGH] speed w
  ∧ direction_switched_only turn_left
      [Some LOW; Some HIGH; Some HIGH; Some LOW] speed w
  ∧ direction_switched_only turn_right
      [Some HIGH; Some LOW; Some LOW; Some HIGH] speed w.
Proof.
  split; [apply refused_direction_switched, move_forward_refused,
            Hrefused |].
  split; [apply refused_direction_switched, move_backward_refused,
            Hrefused |].
  split; [apply refused_direction_switched, turn_left_refused, Hrefused |].
  apply refused_direction_switched, turn_right_refused, Hrefused.
Qed.

(** Driving forward at 70, then [move_backward(150)]: the pins are those
    of Backward and the duty cycle is still 70. *)
Lemma refused_speed_switches_direction_witness :
  PWM.valid_dutycycle (effective_speed (Some 150%Q) (self forward_world))
  = false
  ∧ direction_switched_only move_backward
      [Some LOW; Some HIGH; Some LOW; Some HIGH] (Some 150%Q) forward_world
  ∧ enable_duty (self forward_world) = (70%Q, 70%Q)
  ∧ is_moving (self forward_world) = true.
Proof.
  assert (Hv : PWM.valid_dutycycle
                 (effective_speed (Some 150%Q) (self forward_world))
               = false) by reflexivity.
  split; [exact Hv |].
  split; [exact (proj1 (proj2 (refused_speed_switches_direction
                                 (Some 150%Q) forward_world Hv))) |].
  split; reflexivity.
Defined.

(** *** The watchdog loop over several iterations *)

Lemma watchdog_loop_step (n : nat) (w w1 : world) :
  watchdog_active (self w) = true →
  _watchdog_iteration w = Ok tt w1 →
  _watchdog_loop (S n) w = _watchdog_loop n w1.
Proof.
  intros Ha Hit. cbn [_watchdog_loop].
  unfold mbind, M_bind, getattr, gets. rewrite Ha, Hit. reflexivity.
Qed.

Lemma watchdog_loop_disarmed (n : nat) (w : world) :
  watchdog_active (self w) = false → _watchdog_loop n w = Ok tt w.
Proof.
  intros Ha. destruct n; [reflexivity |]. cbn [_watchdog_loop].
  unfold mbind, M_bind, getattr, gets. rewrite Ha. reflexivity.
Qed.

Lemma pauses_attributes (n : nat) (w : world) :
  self (pauses n w) = self w
  ∧ gpio (proc (pauses n w)) = gpio (proc w)
  ∧ console (proc (pauses n w)) = console (proc w).
Proof.
  revert w. induction n as [| n IH]; intros w; [repeat split |].
  cbn [pauses]. destruct (IH (after 0.1 w)) as (H1 & H2 & H3).
  rewrite H1, H2, H3. repeat split.
Qed.

Lemma inject_succ (n : nat) :
  (inject_Z (Z.of_nat (S n)) == inject_Z (Z.of_nat n) + 1)%Q.
Proof.
  rewrite Nat2Z.inj_succ. unfold Z.succ. rewrite inject_Z_plus. reflexivity.
Qed.

Lemma command_age_after (d : Q) (w : world) :
  (command_age (after d w) == command_age w + d)%Q.
Proof. unfold command_age. cbn. lra. Qed.

(** While it is not moving, the loop only pauses. *)
Lemma watchdog_loop_idle (n : nat) (w : world) :
  watchdog_active (self w) = true → is_moving (self w) = false →
  _watchdog_loop n w = Ok tt (pauses n w).
Proof.
  revert w. induction n as [| n IH]; intros w Ha Hm; [reflexivity |].
  rewrite (watchdog_loop_step n w (after 0.1 w) Ha)
    by (apply watchdog_iteration_quiet; left; exact Hm).
  cbn [pauses]. apply IH; assumption.
Qed.

Lemma direction_pins_gpio (p p' : process) :
  gpio p' = gpio p → direction_pins p' = direction_pins p.
Proof.
  intros H. unfold direction_pins, motor_pin_level, pin_level.
  rewrite H. reflexivity.
Qed.

Lemma at_rest_after_forced_stop (n : nat) (w : world) :
  watchdog_active (self w) = true →
  ∃ w', _watchdog_loop n (final (forced_stop_path w)) = Ok tt w'
    ∧ at_rest w'.
Proof.
  intros Ha. rewrite forced_stop_path_run. cbn [final].
  eexists. split.
  - apply watchdog_loop_idle; [exact Ha | reflexivity].
  - match goal with |- at_rest (pauses n ?w1) =>
      destruct (pauses_attributes n w1) as (Hself & Hgpio & _)
    end.
    unfold at_rest. rewrite Hself, (direction_pins_gpio _ _ Hgpio).
    split; [reflexivity |]. split; [reflexivity |]. read_pins.
Qed.

Lemma watchdog_loop_fires (n : nat) (w : world) :
  watchdog_active (self w) = true →
  is_moving (self w) = true →
  (WATCHDOG_TIMEOUT < command_age w + 0.1 * inject_Z (Z.of_nat n))%Q →
  ∃ w', _watchdog_loop (S n) w = Ok tt w' ∧ at_rest w'.
Proof.
  revert w. induction n as [| n IH]; intros w Ha Hm Hage.
  - change (inject_Z (Z.of_nat 0)) with 0%Q in Hage.
    assert (Ht : (WATCHDOG_TIMEOUT
                  < clock (proc w) - last_command_time (self w))%Q)
      by (unfold command_age in Hage; lra).
    pose proof (watchdog_iteration_fires w Hm Ht) as Hit.
    destruct (at_rest_after_forced_stop 0 w Ha) as [w' [Hrun Hrest]].
    exists w'. split; [| exact Hrest].
    rewrite (watchdog_loop_step 0 w (final (forced_stop_path w)) Ha);
      [exact Hrun |].
    rewrite Hit, forced_stop_path_run. reflexivity.
  - destruct (Qlt_le_dec WATCHDOG_TIMEOUT (command_age w)) as [Ht | Ht].
    + pose proof (watchdog_iteration_fires w Hm Ht) as Hit.
      destruct (at_rest_after_forced_stop (S n) w Ha) as [w' [Hrun Hrest]].
      exists w'. split; [| exact Hrest].
      rewrite (watchdog_loop_step (S n) w (final (forced_stop_path w)) Ha);
        [exact Hrun |].
      rewrite Hit, forced_stop_path_run. reflexivity.
    + rewrite inject_succ in Hage.
      rewrite (watchdog_loop_step (S n) w (after 0.1 w) Ha)
        by (apply watchdog_iteration_quiet; right; exact Ht).
      apply IH; [exact Ha | exact Hm |].
      rewrite command_age_after. lra.
Qed.

(** X6. Left alone for long enough, the watchdog loop stops the robot: if the
    last command will be more than [WATCHDOG_TIMEOUT] old at the check of
    iteration [n + 1], then after [n + 1] iterations the controller is not
    moving, both duty cycles are 0 and IN1..IN4 are LOW. *)
Theorem watchdog_loop_stops_silent_robot (n : nat) (w : world)
  (Harmed : watchdog_active (self w) = true)
  (Hmoving : is_moving (self w) = true)
  (Hsilent :
     (WATCHDOG_TIMEOUT < command_age w + 0.1 * inject_Z (Z.of_nat n))%Q) :
  ∃ w', _watchdog_loop (S n) w = Ok tt w' ∧ at_rest w'.
Proof. exact (watchdog_loop_fires n w Harmed Hmoving Hsilent). Qed.

(** Right after [forward], 21 pauses of 0.1 s exceed the timeout: the
    twenty-second iteration finds the robot stopped. *)
Lemma watchdog_loop_stops_silent_robot_witness :
  watchdog_active (self forward_world) = true
  ∧ is_moving (self forward_world) = true
  ∧ (WATCHDOG_TIMEOUT
     < command_age forward_world + 0.1 * inject_Z (Z.of_nat 21))%Q
  ∧ ∃ w', _watchdog_loop 22 forward_world = Ok tt w' ∧ at_rest w'.
Proof.
  assert (Ha : watchdog_active (self forward_world) = true) by reflexivity.
  assert (Hm : is_moving (self forward_world) = true) by reflexivity.
  assert (Hs : (WATCHDOG_TIMEOUT
                < command_age forward_world
                  + 0.1 * inject_Z (Z.of_nat 21))%Q)
    by (vm_compute; reflexivity).
  split; [exact Ha |]. split; [exact Hm |]. split; [exact Hs |].
  exact (watchdog_loop_stops_silent_robot 21 forward_world Ha Hm Hs).
Defined.

Lemma last_check_nonneg (delay : Q) (delays : list Q) :
  latencies (delay :: delays) → (0 <= last_check delay delays)%Q.
Proof.
  revert delay. induction delays as [| delay' delays IH]; intros delay H;
    inversion H as [| ? ? H0 Hrest]; subst; [exact H0 |].
  cbn [last_check]. specialize (IH delay' Hrest). lra.
Qed.

Lemma watchdog_run_step (delay : Q) (delays : list Q) (w w1 : world) :
  watchdog_active (self w) = true →
  _watchdog_iteration (after delay w) = Ok tt w1 →
  watchdog_run (delay :: delays) w = watchdog_run delays w1.
Proof.
  intros Ha Hit. cbn [watchdog_run].
  unfold mbind, M_bind, getattr, gets, modify. rewrite Ha, Hit. reflexivity.
Qed.

Lemma watchdog_run_disarmed (delays : list Q) (w : world) :
  watchdog_active (self w) = false → watchdog_run delays w = Ok tt w.
Proof.
  intros Ha. destruct delays; [reflexivity |]. cbn [watchdog_run].
  unfold mbind, M_bind, getattr, gets. rewrite Ha. reflexivity.
Qed.

(** While the robot is not moving, the watchdog thread changes nothing,
    however it is scheduled. *)
Lemma watchdog_run_idle (delays : list Q) (w : world) :
  is_moving (self w) = false →
  ∃ w', watchdog_run delays w = Ok tt w'
    ∧ self w' = self w
    ∧ gpio (proc w') = gpio (proc w)
    ∧ console (proc w') = console (proc w).
Proof.
  revert w. induction delays as [| delay delays IH]; intros w Hm.
  { exists w. repeat split. }
  destruct (watchdog_active (self w)) eqn:Ha.
  - rewrite (watchdog_run_step delay delays w (after 0.1 (after delay w)) Ha)
      by (apply watchdog_iteration_quiet; left; exact Hm).
    destruct (IH (after 0.1 (after delay w)) Hm) as [w' (Hrun & H1 & H2 & H3)].
    exists w'. split; [exact Hrun |]. rewrite H1, H2, H3. repeat split.
  - rewrite (watchdog_run_disarmed _ w Ha). exists w. repeat split.
Qed.

(** While its checks fall within the timeout, the watchdog thread changes
    nothing. *)
Lemma watchdog_run_quiet (delay : Q) (delays : list Q) (w : world) :
  latencies (delay :: delays) →
  (command_age w + last_check delay delays <= WATCHDOG_TIMEOUT)%Q →
  ∃ w', watchdog_run (delay :: delays) w = Ok tt w'
    ∧ self w' = self w
    ∧ gpio (proc w') = gpio (proc w)
    ∧ console (proc w') = console (proc w).
Proof.
  revert delay w.
  induction delays as [| delay' delays IH]; intros delay w Hlat Hfresh.
  - destruct (watchdog_active (self w)) eqn:Ha.
    + rewrite (watchdog_run_step delay [] w (after 0.1 (after delay w)) Ha).
      * eexists. split; [reflexivity |]. repeat split.
      * apply watchdog_iteration_quiet. right.
        fold (command_age (after delay w)). rewrite command_age_after.
        exact Hfresh.
    + rewrite (watchdog_run_disarmed _ w Ha). exists w. repeat split.
  - inversion Hlat as [| ? ? H0 Hrest]; subst.
    pose proof (last_check_nonneg delay' delays Hrest) as Hnext.
    cbn [last_check] in Hfresh.
    destruct (watchdog_active (self w)) eqn:Ha.
    + rewrite (watchdog_run_step delay (delay' :: delays) w
                 (after 0.1 (after delay w)) Ha).
      * destruct (IH delay' (after 0.1 (after delay w)) Hrest)
          as [w' (Hrun & H1 & H2 & H3)].
        { rewrite !command_age_after. lra. }
        exists w'. split; [exact Hrun |]. rewrite H1, H2, H3. repeat split.
      * apply watchdog_iteration_quiet. right.
        fold (command_age (after delay w)). rewrite command_age_after. lra.
    + rewrite (watchdog_run_disarmed _ w Ha). exists w. repeat split.
Qed.

(** X7. However the watchdog thread is scheduled, as long as its checks
    fall within [WATCHDOG_TIMEOUT] of the last command, its iterations
    only pause: nothing is printed, no pin is written and the controller
    object is untouched.  The hypothesis is on the time of the last
    check: the age of the command at the start, the latencies, and the
    pause of 0.1 s of each iteration before the last. *)
Theorem watchdog_loop_quiet_while_fresh (delay : Q) (delays : list Q)
  (w : world)
  (Hlatencies : latencies (delay :: delays))
  (Hfresh :
     (command_age w + last_check delay delays <= WATCHDOG_TIMEOUT)%Q) :
  ∃ w', watchdog_run (delay :: delays) w = Ok tt w'
    ∧ self w' = self w
    ∧ gpio (proc w') = gpio (proc w)
    ∧ console (proc w') = console (proc w).
Proof. exact (watchdog_run_quiet delay delays w Hlatencies Hfresh). Qed.

(** Right after [forward], three checks of an armed watchdog, each held up
    for 0.3 s: the last one comes 1.1 s after the command, and the robot
    is still moving. *)
Lemma watchdog_loop_quiet_while_fresh_witness :
  latencies [0.3; 0.3; 0.3]%Q
  ∧ (command_age forward_world + last_check 0.3 [0.3; 0.3]
     <= WATCHDOG_TIMEOUT)%Q
  ∧ watchdog_active (self forward_world) = true
  ∧ is_moving
      (self (final (watchdog_run [0.3; 0.3; 0.3]%Q forward_world)))
    = true.
Proof.
  assert (Hl : latencies [0.3; 0.3; 0.3]%Q)
    by (repeat (apply List.Forall_cons || apply List.Forall_nil);
        discriminate).
  assert (Hf : (command_age forward_world + last_check 0.3 [0.3; 0.3]
                <= WATCHDOG_TIMEOUT)%Q)
    by (vm_compute; discriminate).
  split; [exact Hl |]. split; [exact Hf |]. split; [reflexivity |].
  destruct (watchdog_loop_quiet_while_fresh 0.3 [0.3; 0.3]%Q forward_world
              Hl Hf) as [w' (Hrun & Hself & _)].
  rewrite Hrun. cbn [final]. rewrite Hself. reflexivity.
Defined.

(** X8. Once [watchdog_active] is false, neither background loop makes another
    iteration, however many are still scheduled. *)
Theorem disarmed_loops_do_nothing (n : nat) (heartbeat_state : bool)
  (w : world) (Hdisarmed : watchdog_active (self w) = false) :
  _watchdog_loop n w = Ok tt w
  ∧ heartbeat_iterations n heartbeat_state w = Ok heartbeat_state w.
Proof.
  split; [apply watchdog_loop_disarmed, Hdisarmed |].
  destruct n; [reflexivity |]. cbn [heartbeat_iterations].
  unfold mbind, M_bind, getattr, gets. rewrite Hdisarmed. reflexivity.
Qed.

Lemma disarmed_loops_do_nothing_witness :
  watchdog_active (self (final (cleanup forward_world))) = false
  ∧ _watchdog_loop 5 (final (cleanup forward_world))
    = Ok tt (final (cleanup forward_world)).
Proof.
  assert (Hd : watchdog_active (self (final (cleanup forward_world)))
               = false) by reflexivity.
  split; [exact Hd |].
  exact (proj1 (disarmed_loops_do_nothing 5 true
                  (final (cleanup forward_world)) Hd)).
Defined.

(** *** The heartbeat *)

Lemma heartbeat_idle_run (heartbeat_state : bool) (w : world) :
  is_moving (self w) = false →
  _heartbeat_iteration heartbeat_state w =
  Ok heartbeat_state
    {| proc := elapse HEARTBEAT_INTERVAL
                 (GPIO.write WATCHDOG_PIN HIGH (proc w));
       self := self w |}.
Proof.
  open_world w. cbn [self is_moving]. intros ->.
  destruct heartbeat_state; reflexivity.
Qed.

Lemma heartbeat_moving_run (heartbeat_state : bool) (w : world) :
  is_moving (self w) = true →
  _heartbeat_iteration heartbeat_state w =
  Ok (negb heartbeat_state)
    {| proc := elapse HEARTBEAT_INTERVAL
                 (GPIO.write WATCHDOG_PIN
                    (if heartbeat_state then HIGH else LOW) (proc w));
       self := self w |}.
Proof.
  open_world w. cbn [self is_moving]. intros ->.
  destruct heartbeat_state; reflexivity.
Qed.

Lemma pin_level_write_same (p : process) (ch : Z) (v : level) :
  pin_level (GPIO.write ch v p) ch = Some v.
Proof. rewrite pin_level_write. case_decide; congruence. Qed.

Lemma pin_level_write_other (p : process) (ch ch' : Z) (v : level) :
  ch ≠ ch' → pin_level (GPIO.write ch v p) ch' = pin_level p ch'.
Proof. intros H. rewrite pin_level_write. case_decide; congruence. Qed.

(** X9. While the robot is not moving, a heartbeat iteration drives the
    hardware-watchdog pin HIGH and keeps its toggle state; it writes no
    other pin and leaves the controller object alone.  So the LOW that a
    forced stop of the watchdog or an emergency stop puts on that pin
    lasts until the next heartbeat iteration. *)
Theorem heartbeat_idle_holds_pin_high (heartbeat_state : bool) (w : world)
  (Hidle : is_moving (self w) = false) :
  (∃ w', _heartbeat_iteration heartbeat_state w = Ok heartbeat_state w'
     ∧ pin_level (proc w') WATCHDOG_PIN = Some HIGH
     ∧ (∀ channel, channel ≠ WATCHDOG_PIN →
          pin_level (proc w') channel = pin_level (proc w) channel)
     ∧ self w' = self w)
  ∧ pin_level (proc (final (_emergency_stop_motors w))) WATCHDOG_PIN
    = Some LOW
  ∧ pin_level
      (proc (final (_heartbeat_iteration heartbeat_state
                      (final (_emergency_stop_motors w)))))
      WATCHDOG_PIN
    = Some HIGH.
Proof.
  split; [| split].
  - eexists. split; [apply heartbeat_idle_run, Hidle |].
    cbn [proc self].
    split; [rewrite pin_level_elapse; apply pin_level_write_same |].
    split; [| reflexivity].
    intros channel Hne. rewrite pin_level_elapse.
    apply pin_level_write_other. congruence.
  - rewrite emergency_stop_motors_run. cbn [final proc].
    apply pin_level_write_same.
  - rewrite heartbeat_idle_run
      by (rewrite emergency_stop_motors_keeps_is_moving; exact Hidle).
    cbn [final proc]. rewrite pin_level_elapse.
    apply pin_level_write_same.
Qed.

Lemma heartbeat_idle_holds_pin_high_witness :
  is_moving (self idle_world) = false
  ∧ pin_level
      (proc (final (_heartbeat_iteration false
                      (final (_emergency_stop_motors idle_world)))))
      WATCHDOG_PIN
    = Some HIGH.
Proof.
  assert (Hidle : is_moving (self idle_world) = false) by reflexivity.
  split; [exact Hidle |].
  exact (proj2 (proj2 (heartbeat_idle_holds_pin_high false idle_world
                         Hidle))).
Defined.

(** X10. While the robot is moving, successive heartbeat iterations write
    opposite levels to the hardware-watchdog pin, [HEARTBEAT_INTERVAL]
    apart, and the toggle state comes back after two of them: a square
    wave of period 1 s.  The thread starts with HIGH. *)
Theorem heartbeat_moving_toggles (heartbeat_state : bool) (w : world)
  (Hmoving : is_moving (self w) = true) :
  ∃ w1 w2,
    _heartbeat_iteration heartbeat_state w = Ok (negb heartbeat_state) w1
    ∧ _heartbeat_iteration (negb heartbeat_state) w1 = Ok heartbeat_state w2
    ∧ pin_level (proc w1) WATCHDOG_PIN
      = Some (if heartbeat_state then HIGH else LOW)
    ∧ pin_level (proc w2) WATCHDOG_PIN
      = Some (if heartbeat_state then LOW else HIGH)
    ∧ clock (proc w1) = (clock (proc w) + HEARTBEAT_INTERVAL)%Q
    ∧ clock (proc w2)
      = (clock (proc w) + HEARTBEAT_INTERVAL + HEARTBEAT_INTERVAL)%Q
    ∧ self w2 = self w
    ∧ heartbeat_iterations 2 heartbeat_state w
      = (if watchdog_active (self w)
         then Ok heartbeat_state w2 else Ok heartbeat_state w).
Proof.
  eexists. eexists.
  split; [apply heartbeat_moving_run, Hmoving |].
  split.
  { rewrite heartbeat_moving_run by exact Hmoving.
    rewrite negb_involutive. reflexivity. }
  cbn [proc self].
  split; [rewrite pin_level_elapse; apply pin_level_write_same |].
  split.
  { rewrite pin_level_elapse, pin_level_write_same.
    destruct heartbeat_state; reflexivity. }
  split; [reflexivity |]. split; [reflexivity |]. split; [reflexivity |].
  cbn [heartbeat_iterations].
  unfold mbind, M_bind, getattr, gets.
  destruct (watchdog_active (self w)) eqn:Ha; [| reflexivity].
  rewrite (heartbeat_moving_run heartbeat_state w Hmoving).
  cbn [self]. rewrite Ha.
  rewrite heartbeat_moving_run by exact Hmoving.
  rewrite negb_involutive. reflexivity.
Qed.

Lemma heartbeat_moving_toggles_witness :
  is_moving (self forward_world) = true
  ∧ pin_level
      (proc (final (_heartbeat_iteration true forward_world)))
      WATCHDOG_PIN
    = Some HIGH
  ∧ pin_level
      (proc (final (_heartbeat_iteration false
                      (final (_heartbeat_iteration true forward_world)))))
      WATCHDOG_PIN
    = Some LOW.
Proof.
  assert (Hm : is_moving (self forward_world) = true) by reflexivity.
  split; [exact Hm |].
  destruct (heartbeat_moving_toggles true forward_world Hm)
    as (w1 & w2 & H1 & H2 & Hp1 & Hp2 & _).
  cbn [negb] in H1, H2. rewrite H1. cbn [final]. rewrite H2. cbn [final].
  split; [exact Hp1 | exact Hp2].
Defined.

(** *** Case in command tokens *)

Lemma lower_ascii_idempotent (c : ascii) :
  lower_ascii (lower_ascii c) = lower_ascii c.
Proof.
  destruct c as [[] [] [] [] [] [] [] []]; reflexivity.
Qed.

Lemma lower_idempotent (s : string) : lower (lower s) = lower s.
Proof.
  induction s as [| c s IH]; [reflexivity |].
  cbn [lower]. rewrite lower_ascii_idempotent, IH. reflexivity.
Qed.

(** X11. The dispatcher treats a token as it treats its lower-case form, so
    tokens that differ by the case of their letters have the same effect,
    and the lower-casing that the topic callback does first changes
    nothing: [command_callback] is [execute_command]. *)
Theorem dispatch_ignores_case (command : string) (w : world) :
  SafeRobotCarNode.execute_command (lower command) w
  = SafeRobotCarNode.execute_command command w
  ∧ SafeRobotCarNode.command_callback command w
    = SafeRobotCarNode.execute_command command w.
Proof.
  split.
  - unfold SafeRobotCarNode.execute_command. cbv zeta.
    rewrite lower_idempotent. reflexivity.
  - unfold SafeRobotCarNode.command_callback,
      SafeRobotCarNode.execute_command. cbv zeta.
    rewrite lower_idempotent. reflexivity.
Qed.

(** *** The velocity callback within its range *)

Lemma Qabs_percent_accepted (v : Q) :
  (Qabs v <= 1)%Q → PWM.valid_dutycycle (Qabs (v * 100)) = true.
Proof.
  intros H. apply valid_dutycycle_spec. split; [apply Qabs_nonneg |].
  rewrite Qabs_Qmult. change (Qabs 100) with 100%Q. lra.
Qed.

Lemma Qabs_positive_sign (v : Q) :
  (0 < Qabs v)%Q → Qgtb v 0 = true ∨ (Qgtb v 0 = false ∧ Qltb v 0 = true).
Proof.
  intros H. destruct (Qgtb v 0) eqn:Hpos; [left; reflexivity | right].
  split; [reflexivity |].
  apply Qgtb_false in Hpos. unfold Qltb.
  apply negb_true_iff, not_true_iff_false. rewrite Qle_bool_iff.
  intros Hge. assert (Hz : (v == 0)%Q) by lra.
  rewrite Hz in H. change (Qabs 0) with 0%Q in H. lra.
Qed.

Lemma driven_stamped (l1 l2 l3 l4 : level) (speed : Q) (w : world) :
  driven l1 l2 l3 l4 (Some speed) (stamped w)
  = driven l1 l2 l3 l4 (Some speed) w.
Proof. open_world w. reflexivity. Qed.

Lemma callback_drives (move : option Q → M world unit)
  (l1 l2 l3 l4 : level) (duty : Q) (w : world) :
  (∀ speed w,
     PWM.valid_dutycycle (effective_speed speed (self w)) = true →
     move speed w = Ok tt (driven l1 l2 l3 l4 speed w)) →
  PWM.valid_dutycycle duty = true →
  drives ((_update_command_time ;; move (Some duty)) w)
    [Some l1; Some l2; Some l3; Some l4] duty (clock (proc w)).
Proof.
  intros Hrun Hv.
  change ((_update_command_time ;; move (Some duty)) w)
    with (move (Some duty) (stamped w)).
  rewrite (Hrun (Some duty) (stamped w) Hv), driven_stamped.
  eexists. split; [reflexivity |].
  split; [unfold driven; read_pins |].
  repeat split.
Qed.

Lemma rounded_exact (v : Q) : rounded (Qabs v * 100) (Qabs (v * 100)).
Proof.
  unfold rounded. rewrite Qabs_Qmult. change (Qabs 100) with 100%Q.
  assert (Hz : (Qabs v * 100 - Qabs v * 100 == 0)%Q) by ring.
  rewrite Hz. change (Qabs 0) with 0%Q.
  pose proof (Qabs_nonneg (Qabs v * 100)) as H.
  assert (Hu : (0 <= Qabs (Qabs v * 100) * (1 # Pos.pow 2 53))%Q).
  { apply Qmult_le_0_compat; [exact H | discriminate]. }
  assert (Ht : (0 <= 1 # Pos.pow 2 1075)%Q) by discriminate.
  lra.
Qed.

Lemma percent_in_range (v : Q) :
  (0 < Qabs v)%Q → (Qabs v <= 1)%Q → (0 < Qabs (v * 100) <= 100)%Q.
Proof.
  intros H0 H1. rewrite Qabs_Qmult. change (Qabs 100) with 100%Q. lra.
Qed.

(** X12. A linear velocity that dominates the angular one and is at most 1 in
    magnitude drives straight: Forward when positive, Backward when
    negative.  Both channels carry one duty cycle, which the driver
    accepts, which is not 0 and which is [|linear_x| * 100] up to the
    rounding of the product.  There is no dead band on this axis. *)
Theorem cmd_vel_linear (msg : geometry_msgs.Twist) (w : world)
  (Hdominant :
     (Qabs (geometry_msgs.z (geometry_msgs.angular msg))
      < Qabs (geometry_msgs.x (geometry_msgs.linear msg)))%Q)
  (Hrange : (Qabs (geometry_msgs.x (geometry_msgs.linear msg)) <= 1)%Q) :
  drives_at (SafeRobotCarNode.cmd_vel_callback msg w)
    (if Qgtb (geometry_msgs.x (geometry_msgs.linear msg)) 0
     then [Some HIGH; Some LOW; Some HIGH; Some LOW]
     else [Some LOW; Some HIGH; Some LOW; Some HIGH])
    (Qabs (geometry_msgs.x (geometry_msgs.linear msg)) * 100)
    (clock (proc w)).
Proof.
  set (lx := geometry_msgs.x (geometry_msgs.linear msg)) in *.
  set (az := geometry_msgs.z (geometry_msgs.angular msg)) in *.
  pose proof (Qabs_percent_accepted lx Hrange) as Hv.
  assert (Hpos : (0 < Qabs lx)%Q).
  { pose proof (Qabs_nonneg az). lra. }
  exists (Qabs (lx * 100)).
  split; [| split; [apply percent_in_range; assumption
                   | apply rounded_exact]].
  apply Qgtb_true in Hdominant.
  unfold SafeRobotCarNode.cmd_vel_callback. cbv zeta. fold lx az.
  rewrite Hdominant.
  destruct (Qabs_positive_sign lx Hpos) as [Hs | [Hs Hn]]; rewrite Hs.
  - apply (callback_drives _ _ _ _ _ _ w move_forward_run Hv).
  - rewrite Hn. apply (callback_drives _ _ _ _ _ _ w move_backward_run Hv).
Qed.

Lemma cmd_vel_linear_witness :
  (Qabs (geometry_msgs.z (geometry_msgs.angular reverse_twist))
   < Qabs (geometry_msgs.x (geometry_msgs.linear reverse_twist)))%Q
  ∧ (Qabs (geometry_msgs.x (geometry_msgs.linear reverse_twist)) <= 1)%Q
  ∧ drives_at (SafeRobotCarNode.cmd_vel_callback reverse_twist idle_world)
      [Some LOW; Some HIGH; Some LOW; Some HIGH]
      (Qabs (- 0.5) * 100) 0.
Proof.
  assert (Hd : (Qabs (geometry_msgs.z (geometry_msgs.angular reverse_twist))
                < Qabs (geometry_msgs.x
                          (geometry_msgs.linear reverse_twist)))%Q)
    by (vm_compute; reflexivity).
  assert (Hr : (Qabs (geometry_msgs.x (geometry_msgs.linear reverse_twist))
                <= 1)%Q)
    by (vm_compute; discriminate).
  split; [exact Hd |]. split; [exact Hr |].
  exact (cmd_vel_linear reverse_twist idle_world Hd Hr).
Defined.

Lemma threshold_stops (w : world) :
  SafeRobotCarNode.cmd_vel_callback threshold_twist w = stop (stamped w).
Proof. reflexivity. Qed.

(** X13. An angular velocity that is not dominated by the linear one, above
    the dead band and at most 1 in magnitude, pivots: Left when positive,
    Right otherwise.  Both channels carry one duty cycle, which the driver
    accepts, which is not 0 and which is [|angular_z| * 100] up to the
    rounding of the product.  A tie between the two magnitudes goes to
    the turn.  The dead band ends at the float [0.1], which is still
    inside it: a rotation at exactly that velocity stops the robot. *)
Theorem cmd_vel_angular (msg : geometry_msgs.Twist) (w : world)
  (Hdominant :
     (Qabs (geometry_msgs.x (geometry_msgs.linear msg))
      <= Qabs (geometry_msgs.z (geometry_msgs.angular msg)))%Q)
  (Hband :
     (float_0_1 < Qabs (geometry_msgs.z (geometry_msgs.angular msg)))%Q)
  (Hrange : (Qabs (geometry_msgs.z (geometry_msgs.angular msg)) <= 1)%Q) :
  drives_at (SafeRobotCarNode.cmd_vel_callback msg w)
    (if Qgtb (geometry_msgs.z (geometry_msgs.angular msg)) 0
     then [Some LOW; Some HIGH; Some HIGH; Some LOW]
     else [Some HIGH; Some LOW; Some LOW; Some HIGH])
    (Qabs (geometry_msgs.z (geometry_msgs.angular msg)) * 100)
    (clock (proc w))
  ∧ (∀ v : world,
       ∃ v', SafeRobotCarNode.cmd_vel_callback threshold_twist v = Ok tt v'
         ∧ at_rest v').
Proof.
  set (lx := geometry_msgs.x (geometry_msgs.linear msg)) in *.
  set (az := geometry_msgs.z (geometry_msgs.angular msg)) in *.
  pose proof (Qabs_percent_accepted az Hrange) as Hv.
  assert (Hpos : (0 < Qabs az)%Q) by (unfold float_0_1 in Hband; lra).
  split.
  - exists (Qabs (az * 100)).
    split; [| split; [apply percent_in_range; assumption
                     | apply rounded_exact]].
    apply Qgtb_false in Hdominant. apply Qgtb_true in Hband.
    unfold SafeRobotCarNode.cmd_vel_callback. cbv zeta. fold lx az.
    rewrite Hdominant, Hband.
    destruct (Qgtb az 0).
    + apply (callback_drives _ _ _ _ _ _ w turn_left_run Hv).
    + apply (callback_drives _ _ _ _ _ _ w turn_right_run Hv).
  - intros v. rewrite threshold_stops, stop_run.
    eexists. split; [reflexivity |].
    unfold at_rest. split; [reflexivity |]. split; [reflexivity |].
    cbn [proc stamped]. read_pins.
Qed.

Lemma cmd_vel_angular_witness :
  (Qabs (geometry_msgs.x (geometry_msgs.linear tie_twist))
   <= Qabs (geometry_msgs.z (geometry_msgs.angular tie_twist)))%Q
  ∧ (float_0_1
     < Qabs (geometry_msgs.z (geometry_msgs.angular tie_twist)))%Q
  ∧ (Qabs (geometry_msgs.z (geometry_msgs.angular tie_twist)) <= 1)%Q
  ∧ drives_at (SafeRobotCarNode.cmd_vel_callback tie_twist idle_world)
      [Some HIGH; Some LOW; Some LOW; Some HIGH]
      (Qabs (- 0.5) * 100) 0.
Proof.
  assert (Hd : (Qabs (geometry_msgs.x (geometry_msgs.linear tie_twist))
                <= Qabs (geometry_msgs.z
                           (geometry_msgs.angular tie_twist)))%Q)
    by (vm_compute; discriminate).
  assert (Hb : (float_0_1
                < Qabs (geometry_msgs.z
                          (geometry_msgs.angular tie_twist)))%Q)
    by (vm_compute; reflexivity).
  assert (Hr : (Qabs (geometry_msgs.z (geometry_msgs.angular tie_twist))
                <= 1)%Q)
    by (vm_compute; discriminate).
  split; [exact Hd |]. split; [exact Hb |]. split; [exact Hr |].
  exact (proj1 (cmd_vel_angular tie_twist idle_world Hd Hb Hr)).
Defined.

(** X14. When the linear velocity does not dominate and the angular one is
    within the dead band of 0.1, the callback stops the robot: duty
    cycles 0, IN1..IN4 LOW, [is_moving] false, timestamp refreshed.  The
    zero message is such a message. *)
Theorem cmd_vel_dead_band (msg : geometry_msgs.Twist) (w : world)
  (Hdominant :
     (Qabs (geometry_msgs.x (geometry_msgs.linear msg))
      <= Qabs (geometry_msgs.z (geometry_msgs.angular msg)))%Q)
  (Hband : (Qabs (geometry_msgs.z (geometry_msgs.angular msg)) <= 0.1)%Q) :
  ∃ w', SafeRobotCarNode.cmd_vel_callback msg w = Ok tt w'
    ∧ at_rest w'
    ∧ last_command_time (self w') = clock (proc w)
    ∧ stop w = Ok tt w'.
Proof.
  assert (Hliteral : (Qabs (geometry_msgs.z (geometry_msgs.angular msg))
                      <= float_0_1)%Q)
    by (unfold float_0_1; lra).
  apply Qgtb_false in Hdominant, Hliteral.
  unfold SafeRobotCarNode.cmd_vel_callback. cbv zeta.
  rewrite Hdominant, Hliteral.
  change ((_update_command_time ;; stop) w) with (stop (stamped w)).
  rewrite !stop_run. eexists. split; [reflexivity |].
  split; [| split; [reflexivity | open_world w; reflexivity]].
  unfold at_rest. split; [reflexivity |]. split; [reflexivity |].
  cbn [proc stamped]. read_pins.
Qed.

Lemma cmd_vel_dead_band_witness :
  (Qabs (geometry_msgs.x (geometry_msgs.linear zero_twist))
   <= Qabs (geometry_msgs.z (geometry_msgs.angular zero_twist)))%Q
  ∧ (Qabs (geometry_msgs.z (geometry_msgs.angular zero_twist)) <= 0.1)%Q
  ∧ at_rest (final (SafeRobotCarNode.cmd_vel_callback zero_twist
                      forward_world)).
Proof.
  assert (Hd : (Qabs (geometry_msgs.x (geometry_msgs.linear zero_twist))
                <= Qabs (geometry_msgs.z
                           (geometry_msgs.angular zero_twist)))%Q)
    by (vm_compute; discriminate).
  assert (Hb : (Qabs (geometry_msgs.z (geometry_msgs.angular zero_twist))
                <= 0.1)%Q)
    by (vm_compute; discriminate).
  split; [exact Hd |]. split; [exact Hb |].
  destruct (cmd_vel_dead_band zero_twist forward_world Hd Hb)
    as [w' (Hrun & Hrest & _)].
  rewrite Hrun. exact Hrest.
Defined.

(** *** The HTTP routes *)

(** X15. A request whose path neither starts with [/control] nor is exactly
    [/emergency_stop] returns with the world as it was; unless the path is
    [/] or [/status], the reply is 404.  So [/emergency_stop] followed by
    a query string stops nothing. *)
Theorem get_elsewhere_changes_nothing (int : string → option Z)
  (robot_node : bool) (robot_ip html_content : string)
  (json_dumps : list (string * json) → string)
  (parse_query : string → gmap string (list string))
  (path : string) (w : world)
  (Hcontrol : String.prefix "/control" path = false)
  (Hstop : path ≠ "/emergency_stop") :
  ∃ r, WebHandler.do_GET int robot_node robot_ip html_content json_dumps
         parse_query path w = Ok r w
    ∧ (r = SendError 404 ∨ path = "/" ∨ path = "/status").
Proof.
  unfold WebHandler.do_GET. destruct w as [p c].
  destruct (String.eqb_spec path "/") as [-> | _].
  { eexists. split; [reflexivity |]. right. left. reflexivity. }
  destruct (String.eqb_spec path "/status") as [-> | _].
  { eexists. split; [reflexivity |]. right. right. reflexivity. }
  rewrite Hcontrol.
  destruct (String.eqb_spec path "/emergency_stop") as [-> | _];
    [contradiction |].
  eexists. split; [reflexivity |]. left. reflexivity.
Qed.

Lemma get_elsewhere_changes_nothing_witness :
  String.prefix "/control" "/emergency_stop?now=1" = false
  ∧ "/emergency_stop?now=1" ≠ "/emergency_stop"
  ∧ WebHandler.do_GET int_decimal true "10.0.0.2" "" (λ _, "")
      (λ _, ∅) "/emergency_stop?now=1" forward_world
    = Ok (SendError 404) forward_world.
Proof.
  assert (Hc : String.prefix "/control" "/emergency_stop?now=1" = false)
    by reflexivity.
  assert (Hs : "/emergency_stop?now=1" ≠ "/emergency_stop")
    by discriminate.
  split; [exact Hc |]. split; [exact Hs |].
  destruct (get_elsewhere_changes_nothing int_decimal true "10.0.0.2" ""
              (λ _, "") (λ _, ∅) "/emergency_stop?now=1" forward_world
              Hc Hs) as [r [Hrun [-> | [H | H]]]];
    [exact Hrun | discriminate H | discriminate H].
Defined.

(** X16. Whatever the request, [do_GET] changes the world in one of three ways
    only: through [set_speed], through the dispatcher, or through
    [_emergency_stop_motors]; a handler without a node changes nothing. *)
Theorem get_changes_world_through_controller (int : string → option Z)
  (robot_node : bool) (robot_ip html_content : string)
  (json_dumps : list (string * json) → string)
  (parse_query : string → gmap string (list string))
  (path : string) (w : world) :
  final (WebHandler.do_GET int robot_node robot_ip html_content json_dumps
           parse_query path w) = w
  ∨ robot_node = true
    ∧ ((∃ n, final (WebHandler.do_GET int robot_node robot_ip html_content
                      json_dumps parse_query path w)
             = final (set_speed n w))
       ∨ (∃ command,
            final (WebHandler.do_GET int robot_node robot_ip html_content
                     json_dumps parse_query path w)
            = final (SafeRobotCarNode.execute_command command w))
       ∨ final (WebHandler.do_GET int robot_node robot_ip html_content
                  json_dumps parse_query path w)
         = final (_emergency_stop_motors w)).
Proof.
  destruct (do_GET_effect int robot_node robot_ip html_content json_dumps
              parse_query path w) as [H | [[_ H] | (_ & Hn & H)]].
  - left. exact H.
  - rewrite H.
    destruct (handle_control_command_effect int robot_node
                (parse_query path) w)
      as [H' | [[Hn [n H']] | [Hn [command H']]]].
    + left. exact H'.
    + right. split; [exact Hn |]. left. exists n. exact H'.
    + right. split; [exact Hn |]. right. left. exists command. exact H'.
  - right. split; [exact Hn |]. right. right. exact H.
Qed.

(** X17. In a live controller, whatever its threads have done so far, a
    control request whose command is not [speed], or that carries no
    value, is answered with 200 and [Command '...' executed], whether the
    dispatcher knows the command or not: the caller cannot tell an
    unknown command from an executed one. *)
Theorem control_reply_always_executed (int : string → option Z)
  (robot_node : bool) (params : gmap string (list string))
  (command : string) (rest : list string) (w : world)
  (Hinterleaved : interleaved w)
  (Hlive : live w)
  (Hcmd : params !! "cmd" = Some (command :: rest))
  (Hother : String.eqb command "speed" = false
            ∨ params !! "value" = None) :
  ∃ w', WebHandler.handle_control_command int robot_node params w
        = Ok (Response 200 ("Command '" ++ command ++ "' executed")) w'
    ∧ w' = (if robot_node
            then final (SafeRobotCarNode.execute_command command w)
            else w)
    ∧ live w'.
Proof.
  pose proof (setting_is_percentage w (interleaved_invariant w Hinterleaved))
    as Hcs.
  destruct (execute_command_returns command w Hcs Hlive)
    as [w1 (Hrun & Hlive1 & _)].
  run_handler. rewrite Hcmd.
  cbv beta iota delta [mbind M_bind mret M_ret].
  destruct Hother as [Hs | Hv].
  - rewrite Hs.
    destruct robot_node; cbv beta iota delta [when];
      rewrite ?Hrun; eexists; (split; [reflexivity |]);
      (split; [reflexivity | assumption]).
  - rewrite Hv.
    destruct (String.eqb command "speed"), robot_node;
      cbv beta iota delta [when];
      rewrite ?Hrun; eexists; (split; [reflexivity |]);
      (split; [reflexivity | assumption]).
Qed.

Lemma control_reply_always_executed_witness :
  interleaved forward_world
  ∧ live forward_world
  ∧ ({[ "cmd" := ["banana"] ]} : gmap string (list string)) !! "cmd"
    = Some ["banana"]
  ∧ (∃ w', WebHandler.handle_control_command int_decimal true
             {[ "cmd" := ["banana"] ]} forward_world
           = Ok (Response 200 "Command 'banana' executed") w').
Proof.
  assert (Hc : ({[ "cmd" := ["banana"] ]} : gmap string (list string))
               !! "cmd" = Some ["banana"])
    by (vm_compute; reflexivity).
  split; [exact interleaved_forward_world |].
  split; [exact live_forward_world |]. split; [exact Hc |].
  destruct (control_reply_always_executed int_decimal true
              {[ "cmd" := ["banana"] ]} "banana" [] forward_world
              interleaved_forward_world live_forward_world Hc
              (or_introl eq_refl))
    as [w' [Hrun _]].
  exists w'. exact Hrun.
Defined.

(** X18. A control request without [cmd] is answered with 400 and changes
    nothing, whatever else the query holds. *)
Theorem control_without_cmd_rejected (int : string → option Z)
  (robot_node : bool) (params : gmap string (list string)) (w : world)
  (Hmissing : params !! "cmd" = None) :
  WebHandler.handle_control_command int robot_node params w
  = Ok (SendError 400) w.
Proof. run_handler. rewrite Hmissing. reflexivity. Qed.

Lemma control_without_cmd_rejected_witness :
  ({[ "value" := ["50"] ]} : gmap string (list string)) !! "cmd" = None
  ∧ WebHandler.handle_control_command int_decimal true
      {[ "value" := ["50"] ]} forward_world
    = Ok (SendError 400) forward_world.
Proof.
  assert (Hm : ({[ "value" := ["50"] ]} : gmap string (list string))
               !! "cmd" = None)
    by (vm_compute; reflexivity).
  split; [exact Hm |].
  exact (control_without_cmd_rejected int_decimal true
           {[ "value" := ["50"] ]} forward_world Hm).
Defined.

(** *** The constructor *)

Lemma constructor_writes_levels (p : process) :
  map (pin_level (constructor_writes p)) (map snd MOTOR_PINS)
  = replicate 6 (Some LOW)
  ∧ pin_level (constructor_writes p) WATCHDOG_PIN = Some HIGH.
Proof.
  unfold constructor_writes, WATCHDOG_PIN.
  cbn [map snd MOTOR_PINS replicate].
  rewrite ?pin_level_emit.
  repeat (rewrite pin_level_write || rewrite pin_level_configure).
  split;
    repeat (case_decide; [try discriminate | try congruence]);
    reflexivity.
Qed.

Lemma constructor_writes_configured (p : process) :
  Forall (λ channel, channel ∈ configured (gpio (constructor_writes p)))
    (WATCHDOG_PIN :: map snd MOTOR_PINS)
  ∧ mode (gpio (constructor_writes p)) = Some BCM
  ∧ clock (constructor_writes p) = clock p.
Proof.
  destruct p as [[md wr cf ol] clk con].
  cbv beta iota zeta delta
    [constructor_writes emit GPIO.write GPIO.configure GPIO.set_mode
     GPIO.set_warnings with_gpio gpio clock console mode warnings
     configured output_level].
  unfold WATCHDOG_PIN. cbn [map snd MOTOR_PINS].
  split; [| split; reflexivity].
  repeat constructor; same_channels.
Qed.

(** X1. Whatever state the process is in (pins left HIGH by an earlier run,
    nothing configured, another mode), the constructor returns a
    controller with the six motor pins configured and LOW, the
    hardware-watchdog pin HIGH, both PWM objects running at duty 0,
    [current_speed] 70, not moving, the watchdog armed and the timestamp
    at the current time. *)
Theorem constructor_starts_safe (p : process) :
  ∃ c p', __init__ p = Ok c p'
    ∧ map (pin_level p') (map snd MOTOR_PINS) = replicate 6 (Some LOW)
    ∧ pin_level p' WATCHDOG_PIN = Some HIGH
    ∧ Forall (λ channel, channel ∈ configured (gpio p'))
        (WATCHDOG_PIN :: map snd MOTOR_PINS)
    ∧ mode (gpio p') = Some BCM
    ∧ enable_duty c = (0%Q, 0%Q)
    ∧ PWM.running (pwm_a c) = true ∧ PWM.running (pwm_b c) = true
    ∧ PWM.channel (pwm_a c) = 18 ∧ PWM.channel (pwm_b c) = 12
    ∧ current_speed c = 70
    ∧ is_moving c = false
    ∧ watchdog_active c = true
    ∧ last_command_time c = clock p
    ∧ clock p' = clock p.
Proof.
  eexists. eexists. split; [apply init_run |].
  split; [apply constructor_writes_levels |].
  split; [apply constructor_writes_levels |].
  split; [apply constructor_writes_configured |].
  split; [apply constructor_writes_configured |].
  cbn [enable_duty pwm_a pwm_b PWM.dutycycle PWM.running PWM.channel
       current_speed is_moving watchdog_active last_command_time].
  repeat (split; [reflexivity |]).
  apply constructor_writes_configured.
Qed.

(** *** The status reports *)



(** *** Commands and the countdown of the watchdog *)

Lemma just_commanded_move (move : option Q → M world unit)
  (l1 l2 l3 l4 : level) :
  (∀ speed w,
     PWM.valid_dutycycle (effective_speed speed (self w)) = true →
     move speed w = Ok tt (driven l1 l2 l3 l4 speed w)) →
  (∀ speed w,
     PWM.valid_dutycycle (effective_speed speed (self w)) = false →
     move speed w =
     Raise (ValueError_dutycycle (effective_speed speed (self w)))
       (refused l1 l2 l3 l4 w)) →
  ∀ speed w, just_commanded w (final (move speed w)).
Proof.
  intros Hrun Hrefused speed w.
  destruct (PWM.valid_dutycycle (effective_speed speed (self w))) eqn:Hv.
  - rewrite (Hrun speed w Hv). repeat split.
  - rewrite (Hrefused speed w Hv). repeat split.
Qed.

Lemma just_commanded_stamped (w w' : world) :
  just_commanded (stamped w) w' → just_commanded w w'.
Proof. intros (H1 & H2 & H3). repeat split; assumption. Qed.

Lemma just_commanded_call (w w' : world) :
  command_call w w' → just_commanded w w'.
Proof.
  intros Hcall. destruct Hcall.
  - apply (just_commanded_move _ _ _ _ _ move_forward_run
             move_forward_refused).
  - apply (just_commanded_move _ _ _ _ _ move_backward_run
             move_backward_refused).
  - apply (just_commanded_move _ _ _ _ _ turn_left_run turn_left_refused).
  - apply (just_commanded_move _ _ _ _ _ turn_right_run turn_right_refused).
  - rewrite stop_run. repeat split.
  - rewrite set_speed_run. repeat split.
  - apply just_commanded_stamped.
    unfold SafeRobotCarNode.cmd_vel_callback. cbv zeta.
    repeat match goal with
           | |- context [if ?b then _ else _] => destruct b
           end.
    + apply (just_commanded_move _ _ _ _ _ move_forward_run
               move_forward_refused _ (stamped w)).
    + apply (just_commanded_move _ _ _ _ _ move_backward_run
               move_backward_refused _ (stamped w)).
    + repeat split.
    + apply (just_commanded_move _ _ _ _ _ turn_left_run
               turn_left_refused _ (stamped w)).
    + apply (just_commanded_move _ _ _ _ _ turn_right_run
               turn_right_refused _ (stamped w)).
    + change (just_commanded (stamped w) (final (stop (stamped w)))).
      rewrite stop_run. repeat split.
Qed.

(** X20. Every call on the command path restarts the countdown of the
    watchdog, also [set_speed], which commands no motion, and a movement
    call that raises: it stores the time at which it was made in
    [last_command_time], and however the watchdog thread is scheduled
    from then on, its iterations only pause as long as its checks fall
    within [WATCHDOG_TIMEOUT] of that time. *)
Theorem command_call_restarts_countdown (delay : Q) (delays : list Q)
  (w w' : world)
  (Hcall : command_call w w')
  (Hlatencies : latencies (delay :: delays))
  (Hwithin :
     (command_age w' + last_check delay delays <= WATCHDOG_TIMEOUT)%Q) :
  last_command_time (self w') = clock (proc w)
  ∧ ∃ w'', watchdog_run (delay :: delays) w' = Ok tt w''
      ∧ self w'' = self w'
      ∧ gpio (proc w'') = gpio (proc w')
      ∧ console (proc w'') = console (proc w').
Proof.
  destruct (just_commanded_call w w' Hcall) as (Hstamp & _ & Hclock).
  split; [congruence |].
  apply watchdog_run_quiet; assumption.
Qed.

(** A robot about to time out receives [move_backward(150)], which
    raises: the countdown restarts all the same, and three checks of the
    watchdog, the last one 1.1 s later, leave it moving. *)
Lemma command_call_restarts_countdown_witness :
  command_call silent_forward_world
    (final (move_backward (Some 150%Q) silent_forward_world))
  ∧ latencies [0.3; 0.3; 0.3]%Q
  ∧ (command_age (final (move_backward (Some 150%Q) silent_forward_world))
     + last_check 0.3 [0.3; 0.3] <= WATCHDOG_TIMEOUT)%Q
  ∧ (WATCHDOG_TIMEOUT < command_age silent_forward_world)%Q
  ∧ raised (move_backward (Some 150%Q) silent_forward_world)
    = Some (ValueError_dutycycle 150)
  ∧ watchdog_active (self silent_forward_world) = true
  ∧ is_moving
      (self (final (watchdog_run [0.3; 0.3; 0.3]%Q
                      (final (move_backward (Some 150%Q)
                                silent_forward_world)))))
    = true.
Proof.
  assert (Hc : command_call silent_forward_world
                 (final (move_backward (Some 150%Q) silent_forward_world)))
    by apply call_move_backward.
  assert (Hl : latencies [0.3; 0.3; 0.3]%Q)
    by (repeat (apply List.Forall_cons || apply List.Forall_nil);
        discriminate).
  assert (Hn : (command_age
                  (final (move_backward (Some 150%Q) silent_forward_world))
                + last_check 0.3 [0.3; 0.3] <= WATCHDOG_TIMEOUT)%Q)
    by (vm_compute; discriminate).
  split; [exact Hc |]. split; [exact Hl |]. split; [exact Hn |].
  split; [vm_compute; reflexivity |].
  split; [reflexivity |]. split; [reflexivity |].
  destruct (command_call_restarts_countdown 0.3 [0.3; 0.3]%Q _ _ Hc Hl Hn)
    as [_ [w'' (Hrun & Hself & _)]].
  rewrite Hrun. cbn [final]. rewrite Hself. reflexivity.
Defined.

(** *** The watchdog pre-empted while it fires *)

Lemma watchdog_fires_in_two_parts (w : world) :
  forced_stop_path w = (watchdog_stops_motors ;; watchdog_clears_flag) w.
Proof. rewrite forced_stop_path_run. reflexivity. Qed.

Lemma covered_watchdog_stops_motors : covered watchdog_stops_motors.
Proof. unfold watchdog_stops_motors. cover. Qed.

Lemma covered_watchdog_clears_flag : covered watchdog_clears_flag.
Proof. unfold watchdog_clears_flag. cover. Qed.

Lemma watchdog_preempted_interleaved (call : M world unit) (w : world) :
  covered call → interleaved w → interleaved (watchdog_preempted call w).
Proof.
  intros Hcall Hw. unfold watchdog_preempted.
  apply (interleaved_statements _ _ Hw).
  etrans; [apply covered_watchdog_stops_motors |].
  etrans; [apply Hcall | apply covered_watchdog_clears_flag].
Qed.

(** The world in which the other thread finds the controller: stopped by
    the watchdog, [is_moving] still set. *)
Lemma watchdog_stops_motors_run (w : world) :
  watchdog_stops_motors w =
  Ok tt
    {| proc :=
         GPIO.write WATCHDOG_PIN LOW
           (GPIO.write 8 LOW (GPIO.write 25 LOW
              (GPIO.write 24 LOW (GPIO.write 23 LOW
                 (emit (Print "⚠️ Watchdog timeout - stopping motors")
                    (proc w))))));
       self :=
         with_pwm_b (PWM.with_dutycycle 0 (pwm_b (self w)))
           (with_pwm_a (PWM.with_dutycycle 0 (pwm_a (self w))) (self w)) |}.
Proof. reflexivity. Qed.

Lemma watchdog_clears_flag_run (w : world) :
  watchdog_clears_flag w =
  Ok tt {| proc := elapse 0.1 (proc w);
           self := with_is_moving false (self w) |}.
Proof. reflexivity. Qed.

Lemma watchdog_preempted_by_forward (w : world) :
  (0 ≤ current_speed (self w) ≤ 100)%Z →
  let w' := watchdog_preempted (move_forward None) w in
  (live w → live w')
  ∧ is_moving (self w') = false
  ∧ enable_duty (self w')
    = (inject_Z (current_speed (self w)), inject_Z (current_speed (self w)))
  ∧ direction_pins (proc w') = [Some HIGH; Some LOW; Some HIGH; Some LOW]
  ∧ pin_level (proc w') WATCHDOG_PIN = Some HIGH.
Proof.
  intros Hcs. cbv zeta. unfold watchdog_preempted.
  rewrite watchdog_stops_motors_run. cbn [final].
  rewrite move_forward_run by (apply current_speed_accepted; exact Hcs).
  cbn [final]. rewrite watchdog_clears_flag_run. cbn [final proc self].
  split; [intros Hlive; still_live Hlive |].
  split; [reflexivity |]. split; [reflexivity |].
  split; [unfold driven; read_pins |].
  unfold driven. cbn [proc]. unfold WATCHDOG_PIN.
  rewrite ?pin_level_elapse, ?pin_level_write.
  repeat (case_decide; [try discriminate | try congruence]).
  reflexivity.
Qed.

(** X21. The firing of the watchdog is not atomic.  In a live controller,
    when the last command is older than [WATCHDOG_TIMEOUT] and the robot
    is moving, the next iteration stops the motors and then clears
    [is_moving].  If another thread calls [move_forward()] between the
    two, the motors are driven again at [current_speed] with the Forward
    pins and the hardware-watchdog pin HIGH, and [is_moving] ends up
    false: from then on the watchdog thread, however it is scheduled and
    however long no command arrives, changes nothing. *)
Theorem watchdog_preempted_leaves_robot_driving (w : world)
  (Hinterleaved : interleaved w)
  (Hlive : live w)
  (Hmoving : is_moving (self w) = true)
  (Hsilent : (WATCHDOG_TIMEOUT < command_age w)%Q) :
  _watchdog_iteration w = (watchdog_stops_motors ;; watchdog_clears_flag) w
  ∧ at_rest (final (_watchdog_iteration w))
  ∧ let w' := watchdog_preempted (move_forward None) w in
    interleaved w'
    ∧ live w'
    ∧ is_moving (self w') = false
    ∧ enable_duty (self w')
      = (inject_Z (current_speed (self w)),
         inject_Z (current_speed (self w)))
    ∧ direction_pins (proc w') = [Some HIGH; Some LOW; Some HIGH; Some LOW]
    ∧ pin_level (proc w') WATCHDOG_PIN = Some HIGH
    ∧ ∀ delays : list Q,
        ∃ w'', watchdog_run delays w' = Ok tt w''
          ∧ self w'' = self w'
          ∧ gpio (proc w'') = gpio (proc w').
Proof.
  pose proof (setting_is_percentage w (interleaved_invariant w Hinterleaved))
    as Hcs.
  pose proof (watchdog_iteration_fires w Hmoving Hsilent) as Hfires.
  split; [rewrite Hfires; apply watchdog_fires_in_two_parts |].
  split.
  { rewrite Hfires, forced_stop_path_run. cbn [final]. unfold at_rest.
    split; [reflexivity |]. split; [reflexivity |]. read_pins. }
  cbv zeta.
  destruct (watchdog_preempted_by_forward w Hcs)
    as (Hlive' & Hm & Hduty & Hdir & Hwd).
  split; [apply watchdog_preempted_interleaved;
          [apply covered_move_forward | exact Hinterleaved] |].
  split; [exact (Hlive' Hlive) |].
  split; [exact Hm |]. split; [exact Hduty |]. split; [exact Hdir |].
  split; [exact Hwd |].
  intros delays.
  destruct (watchdog_run_idle delays _ Hm) as [w'' (Hrun & Hself & Hgpio & _)].
  exists w''. split; [exact Hrun |]. split; [exact Hself | exact Hgpio].
Qed.

Lemma interleaved_silent_forward_world : interleaved silent_forward_world.
Proof.
  apply reachable_interleaved, (reachable_step forward_world).
  - exact reachable_forward_world.
  - apply step_elapse. discriminate.
Qed.

Lemma live_after (seconds : Q) (w : world) : live w → live (after seconds w).
Proof.
  intros (Hgpio & Hpwm_a & Hpwm_b). unfold live, after. cbn [proc self].
  split; [apply gpio_ready_elapse; exact Hgpio |].
  split; [exact Hpwm_a | exact Hpwm_b].
Qed.

Lemma live_silent_forward_world : live silent_forward_world.
Proof. apply live_after, live_forward_world. Qed.

(** Driving forward at 70 with the last command 2.5 s old: after the
    pre-empted firing the robot drives at 70 with [is_moving] false, and
    ten more checks of the watchdog, 1 s apart, leave it so. *)
Lemma watchdog_preempted_leaves_robot_driving_witness :
  interleaved silent_forward_world
  ∧ live silent_forward_world
  ∧ is_moving (self silent_forward_world) = true
  ∧ (WATCHDOG_TIMEOUT < command_age silent_forward_world)%Q
  ∧ enable_duty
      (self (final (watchdog_run (replicate 10 1%Q)
                      (watchdog_preempted (move_forward None)
                         silent_forward_world))))
    = (70%Q, 70%Q).
Proof.
  assert (Hm : is_moving (self silent_forward_world) = true) by reflexivity.
  assert (Hs : (WATCHDOG_TIMEOUT < command_age silent_forward_world)%Q)
    by (vm_compute; reflexivity).
  split; [exact interleaved_silent_forward_world |].
  split; [exact live_silent_forward_world |].
  split; [exact Hm |]. split; [exact Hs |].
  destruct (watchdog_preempted_leaves_robot_driving silent_forward_world
              interleaved_silent_forward_world live_silent_forward_world
              Hm Hs)
    as (_ & _ & _ & _ & _ & Hduty & _ & _ & Hquiet).
  destruct (Hquiet (replicate 10 1%Q)) as [w'' (Hrun & Hself & _)].
  rewrite Hrun. cbn [final]. rewrite Hself. exact Hduty.
Defined.
